(** * FlowiseChatEmbed: markdown preprocessing, rendering boundary and
      local-storage persistence

    Shallow embedding of

    - [preprocessMarkdown], [MarkdownParser.parse],
      [MarkdownParser.highlightCode] and [parseMarkdown]
      (markdown parser module), and
    - [setLocalStorageChatflow], [getLocalStorageChatflow],
      [removeLocalStorageChatHistory], [sendRequest], [getCookie],
      [getBubbleButtonSize] and the presence tests (utils module).

    JavaScript strings are sequences of UTF-16 code units; they are modelled
    as lists of code units ([N]).  Exceptions are modelled by the [result]
    type. *)

From Stdlib Require Import ZArith NArith Lia Bool Ascii String List DecimalPos.
From Stdlib Require DecimalNat.
From stdpp Require Import base option list gmap.

#[local] Set Warnings "-register-all".

Local Open Scope Z_scope.
Local Open Scope list_scope.

(** ** JavaScript strings *)

Abbreviation str := (list N).

(** A string literal of the source, as code units (ASCII literals only). *)
Definition lit (s : string) : str :=
  List.map N_of_ascii (list_ascii_of_string s).

Definition PIPE : N := 124%N.   (* '|' *)
Definition DASH : N := 45%N.    (* '-' *)
Definition COLON : N := 58%N.   (* ':' *)
Definition NL : N := 10%N.      (* '\n' *)

Definition str_eqb (a b : str) : bool := bool_decide (a = b).

(** ** Exceptions *)

Inductive exn : Type :=
  | RangeError
  | TypeError
  | SyntaxError
  | LibraryError (tag : nat).   (* whatever an external library throws *)

Inductive result (A : Type) : Type :=
  | Ok (a : A)
  | Throw (e : exn).
Arguments Ok {A} a.
Arguments Throw {A} e.

Definition bind {A B} (r : result A) (k : A -> result B) : result B :=
  match r with
  | Ok a => k a
  | Throw e => Throw e
  end.

Notation "'let*' x ':=' r 'in' k" := (bind r (fun x => k))
  (at level 10, x name, r at level 100, k at level 200).

(** [try { body } catch (e) { handler }] *)
Definition try_catch {A} (body : result A) (handler : exn -> result A) : result A :=
  match body with
  | Ok a => Ok a
  | Throw e => handler e
  end.

Definition raises {A} (r : result A) : Prop := exists e, r = Throw e.

(** ** String primitives used by the source *)

(** ECMAScript WhiteSpace and LineTerminator code points: the set stripped by
    [String.prototype.trim] and matched by [\s]. *)
Definition is_space (c : N) : bool :=
  ((9 <=? c) && (c <=? 13) || (c =? 32) || (c =? 160) || (c =? 5760)
   || (8192 <=? c) && (c <=? 8202) || (c =? 8232) || (c =? 8233)
   || (c =? 8239) || (c =? 8287) || (c =? 12288) || (c =? 65279))%N.

(** [s.includes(c)] for a one-character needle. *)
Definition includes (c : N) (s : str) : bool := existsb (N.eqb c) s.

(** [s.split(c)] for a one-character separator: never the empty array. *)
Fixpoint split (c : N) (s : str) : list str :=
  match s with
  | [] => [[]]
  | x :: s' =>
      if (x =? c)%N then [] :: split c s'
      else match split c s' with
           | seg :: segs => (x :: seg) :: segs
           | [] => [[x]]
           end
  end.

(** [a.join(sep)] for a one-character separator. *)
Fixpoint join (c : N) (l : list str) : str :=
  match l with
  | [] => []
  | [s] => s
  | s :: l' => s ++ c :: join c l'
  end.

Fixpoint trimStart (s : str) : str :=
  match s with
  | [] => []
  | c :: s' => if is_space c then trimStart s' else s
  end.

Definition trimEnd (s : str) : str := rev (trimStart (rev s)).

Definition trim (s : str) : str := trimEnd (trimStart s).

(** [s.startsWith(c)] and [s.endsWith(c)] for a one-character argument. *)
Definition startsWith (c : N) (s : str) : bool :=
  match s with
  | x :: _ => (x =? c)%N
  | [] => false
  end.

Definition endsWith (c : N) (s : str) : bool := startsWith c (rev s).

(** [s.repeat(count)]: a negative count is a RangeError. *)
Definition repeat (s : str) (count : Z) : result str :=
  if count <? 0 then Throw RangeError
  else Ok (concat (replicate (Z.to_nat count) s)).

(** [a.length] as a JavaScript number. *)
Definition len {A} (l : list A) : Z := Z.of_nat (length l).

(** ** Regular expressions

    [RegExp.prototype.test] for a pattern anchored at both ends, by
    Brzozowski derivatives. *)

Inductive regex : Type :=
  | Fail
  | Eps
  | Class (p : N -> bool)
  | Seq (r1 r2 : regex)
  | Alt (r1 r2 : regex)
  | Star (r : regex).

Definition Plus (r : regex) : regex := Seq r (Star r).

Fixpoint nullable (r : regex) : bool :=
  match r with
  | Fail => false
  | Eps => true
  | Class _ => false
  | Seq r1 r2 => nullable r1 && nullable r2
  | Alt r1 r2 => nullable r1 || nullable r2
  | Star _ => true
  end.

Fixpoint deriv (c : N) (r : regex) : regex :=
  match r with
  | Fail => Fail
  | Eps => Fail
  | Class p => if p c then Eps else Fail
  | Seq r1 r2 =>
      Alt (Seq (deriv c r1) r2) (if nullable r1 then deriv c r2 else Fail)
  | Alt r1 r2 => Alt (deriv c r1) (deriv c r2)
  | Star r1 => Seq (deriv c r1) (Star r1)
  end.

Fixpoint test (r : regex) (s : str) : bool :=
  match s with
  | [] => nullable r
  | c :: s' => test (deriv c r) s'
  end.

(** The language of a regular expression, for reasoning. *)
Inductive lang : regex -> str -> Prop :=
  | lang_eps : lang Eps []
  | lang_class p c : p c = true -> lang (Class p) [c]
  | lang_seq r1 r2 s1 s2 : lang r1 s1 -> lang r2 s2 -> lang (Seq r1 r2) (s1 ++ s2)
  | lang_alt_l r1 r2 s : lang r1 s -> lang (Alt r1 r2) s
  | lang_alt_r r1 r2 s : lang r2 s -> lang (Alt r1 r2) s
  | lang_star_nil r : lang (Star r) []
  | lang_star_cons r s1 s2 : lang r s1 -> lang (Star r) s2 -> lang (Star r) (s1 ++ s2).

(** The character class [[\s-:|]]: a class escape next to [-] makes the dash
    a literal, so the class is white space, dash, colon and pipe. *)
Definition sep_class (c : N) : bool :=
  is_space c || (c =? DASH)%N || (c =? COLON)%N || (c =? PIPE)%N.

(** [/^\s*\|[\s-:|]+\|\s*$/] *)
Definition separator_re : regex :=
  Seq (Star (Class is_space))
      (Seq (Class (N.eqb PIPE))
           (Seq (Plus (Class sep_class))
                (Seq (Class (N.eqb PIPE)) (Star (Class is_space))))).

(** ** preprocessMarkdown *)

Module Preprocess.

(** [line.split('|').map(s => s.trim()).filter(s => s.length > 0)] *)
Definition cellContent (line : str) : list str :=
  List.filter (fun s => 0 <? len s) (List.map trim (split PIPE line)).

(** [cellContent.length === 0
     || cellContent.every(cell => cell === '' || cell === '-')] *)
Definition isEmptyRow (line : str) : bool :=
  (len (cellContent line) =? 0)
  || forallb (fun cell => str_eqb cell [] || str_eqb cell [DASH]) (cellContent line).

(** The test guarding [continue]. *)
Definition skipped (line : str) : bool :=
  includes PIPE line && (isEmptyRow line && negb (includes DASH line)).

Definition isSeparator (line : str) : bool := test separator_re line.

(** [line.split('|').filter(s => s.trim().length > 0 || s.includes('-')).length] *)
Definition separatorCols (line : str) : Z :=
  len (List.filter (fun s => (0 <? len (trim s)) || includes DASH s)
                   (split PIPE line)).

(** [line.split('|').filter(s => s.trim().length > 0).length] *)
Definition headerCols (line : str) : Z :=
  len (List.filter (fun s => 0 <? len (trim s)) (split PIPE line)).

(** ['| ' + '--- | '.repeat(cols - 1) + '--- |'] *)
Definition separatorRow (cols : Z) : result str :=
  let* cells := repeat (lit "--- | ") (cols - 1) in
  Ok (lit "| " ++ cells ++ lit "--- |").

(** The second [if] of the loop body: a separator row is rewritten. *)
Definition normalize (line : str) : result str :=
  if includes PIPE line && includes DASH line then
    if isSeparator line then separatorRow (separatorCols line)
    else Ok line
  else Ok line.

(** [line.trim().startsWith('|') && line.trim().endsWith('|')
     && !line.includes('-')] *)
Definition isTableRow (line : str) : bool :=
  startsWith PIPE (trim line) && endsWith PIPE (trim line)
  && negb (includes DASH line).

(** [nextLine && !(nextLine.includes('|') && nextLine.includes('-'))]:
    [undefined] (no such index) and the empty string are falsy. *)
Definition nextLineAllows (nextLine : option str) : bool :=
  match nextLine with
  | None => false
  | Some [] => false
  | Some n => negb (includes PIPE n && includes DASH n)
  end.

Record loop_state : Type := mkLoop {
  fixedLines : list str;
  firstTableRowSeen : bool
}.

(** One iteration of the [for] loop, at index [i]. *)
Definition loop_body (originalLines : list str) (i : nat) (st : loop_state)
  : result loop_state :=
  match originalLines !! i with
  | None => Ok st
  | Some line0 =>
      if skipped line0 then Ok st   (* continue *)
      else
        let* line := normalize line0 in
        let fixed := fixedLines st ++ [line] in
        if isTableRow line && negb (firstTableRowSeen st) then
          if nextLineAllows (originalLines !! (i + 1)%nat) then
            let* separator := separatorRow (headerCols line) in
            Ok (mkLoop (fixed ++ [separator]) true)
          else Ok (mkLoop fixed true)
        else Ok (mkLoop fixed (firstTableRowSeen st))
  end.

(** [for (let i = start; i < start + n; i++) body], the state threaded. *)
Fixpoint for_loop {S} (n : nat) (i : nat) (body : nat -> S -> result S) (st : S)
  : result S :=
  match n with
  | O => Ok st
  | S n' => let* st' := body i st in for_loop n' (Datatypes.S i) body st'
  end.

Definition preprocessMarkdown (text : str) : result str :=
  if negb (includes PIPE text) then Ok text
  else
    let originalLines := split NL text in
    let* st := for_loop (length originalLines) 0 (loop_body originalLines)
                        (mkLoop [] false) in
    Ok (join NL (fixedLines st)).

(** *** The loop without its plumbing, for the proofs below

    [separator_row], [normalized] and [process] are the exception-free
    readings of [separatorRow], [normalize] and the [for] loop; they are
    related to the definitions above by [separatorRow_ok], [normalize_ok]
    and [for_loop_process]. *)

Definition separator_row (cols : nat) : str :=
  lit "| " ++ concat (replicate (cols - 1) (lit "--- | ")) ++ lit "--- |".

(** The line tested by the second [if]. *)
Definition isSeparatorRow (line : str) : bool :=
  includes PIPE line && includes DASH line && isSeparator line.

Definition normalized (line : str) : str :=
  if isSeparatorRow line then separator_row (Z.to_nat (separatorCols line))
  else line.

(** What one source line contributes when no separator is synthesized. *)
Definition keep (line : str) : list str :=
  if skipped line then [] else [normalized line].

(** A line that reaches the third [if] and passes its row test. *)
Definition kept_row (line : str) : bool :=
  negb (skipped line) && isTableRow line.

Fixpoint process (lines : list str) (seen : bool) : list str :=
  match lines with
  | [] => []
  | line0 :: rest =>
      if skipped line0 then process rest seen
      else
        let line := normalized line0 in
        if isTableRow line && negb seen then
          line :: (if nextLineAllows (head rest)
                   then [separator_row (Z.to_nat (headerCols line))]
                   else [])
               ++ process rest true
        else line :: process rest seen
  end.

(** A line as the loop leaves it: not an empty row, and in canonical form
    when it is a separator row. *)
Definition settled (l : str) : Prop :=
  skipped l = false
  /\ (isSeparatorRow l = true -> exists c, (1 <= c)%nat /\ l = separator_row c).

End Preprocess.

(** ** MarkdownParser

    markdown-it and DOMPurify are external libraries: the renderer and the
    sanitizer are parameters of [parse].  An HTML string is represented by
    the DOM forest it denotes (what [innerHTML] would parse it to), so that
    "the output contains a tag / an attribute" has a meaning. *)

Module Renderer.

Inductive node : Type :=
  | Text (data : str)
  | Element (tag : str) (attrs : list (str * str)) (children : list node).

Abbreviation html := (list node).

(** [MarkdownParserOptions]: three optional booleans. *)
Record MarkdownParserOptions : Type := mkOptions {
  opt_sanitize : option bool;
  opt_highlight : option bool;
  opt_breaks : option bool
}.

(** [x !== false] on an optional boolean. *)
Definition not_false (x : option bool) : bool :=
  match x with
  | Some false => false
  | _ => true
  end.

(** The options object handed to [new MarkdownIt(...)]; [md_highlight]
    tells whether the [highlightCode] callback is installed. *)
Record MarkdownItOptions : Type := mkMdOptions {
  md_html : bool;
  md_linkify : bool;
  md_typographer : bool;
  md_breaks : bool;
  md_highlight : bool
}.

Record MarkdownParser : Type := mkParser {
  md : MarkdownItOptions;
  sanitize : bool
}.

(** [constructor(options)] *)
Definition new_MarkdownParser (options : MarkdownParserOptions) : MarkdownParser :=
  let sanitize := not_false (opt_sanitize options) in
  mkParser
    (mkMdOptions (negb sanitize) true true
                 (not_false (opt_breaks options))
                 (not_false (opt_highlight options)))
    sanitize.

Definition defaultMarkdownParser : MarkdownParser :=
  new_MarkdownParser (mkOptions (Some true) (Some true) (Some true)).

Definition unsafeMarkdownParser : MarkdownParser :=
  new_MarkdownParser (mkOptions (Some false) (Some true) (Some true)).

(** The configuration object passed to [DOMPurify.sanitize]. *)
Record SanitizeConfig : Type := mkConfig {
  ALLOWED_TAGS : list str;
  ALLOWED_ATTR : list str;
  ALLOW_DATA_ATTR : bool;
  ADD_ATTR : list str
}.

Definition parse_config : SanitizeConfig :=
  mkConfig
    (List.map lit
       ["p"; "br"; "strong"; "em"; "u"; "s"; "code"; "pre"; "a"; "ul"; "ol";
        "li"; "blockquote"; "h1"; "h2"; "h3"; "h4"; "h5"; "h6"; "table";
        "thead"; "tbody"; "tr"; "th"; "td"; "hr"; "img"; "span"; "div"]%string)
    (List.map lit
       ["href"; "target"; "rel"; "class"; "src"; "alt"; "title"]%string)
    false
    (List.map lit ["target"]%string).

(** The argument of [parse]: typed [string], but the body also guards
    against [null], [undefined] and other non-strings; for the latter
    [coerced] is [String(markdown)]. *)
Inductive arg : Type :=
  | ANull
  | AUndefined
  | AString (s : str)
  | ANonString (coerced : str).

(** The string a DOM [textContent] setter receives for the argument. *)
Definition text_of (markdown : arg) : str :=
  match markdown with
  | ANull | AUndefined => []
  | AString s => s
  | ANonString s => s
  end.

(** [escapeHtml]: a detached [div] gets [textContent = text] and its
    [innerHTML] is returned, the serialisation of at most one text node. *)
Definition escapeHtml (text : str) : html :=
  match text with
  | [] => []
  | _ => [Text text]
  end.

Section Parse.

(** [this.md.render] of markdown-it, for the options of the instance. *)
Variable md_render : MarkdownItOptions -> str -> result html.
(** [DOMPurify.sanitize(html, config)]. *)
Variable DOMPurify_sanitize : SanitizeConfig -> html -> result html.

(** The statements of [parse] after the input validation. *)
Definition render_pipeline (this : MarkdownParser) (markdown : str) : result html :=
  let* preprocessedMarkdown := Preprocess.preprocessMarkdown markdown in
  let* html := md_render (md this) preprocessedMarkdown in
  if sanitize this then DOMPurify_sanitize parse_config html
  else Ok html.

(** The [try] block of [parse]. *)
Definition parse_try (this : MarkdownParser) (markdown : arg) : result html :=
  match markdown with
  | ANull | AUndefined => Ok []
  | ANonString coerced => Ok (escapeHtml coerced)
  | AString s =>
      if str_eqb (trim s) [] then Ok []
      else render_pipeline this s
  end.

Definition parse (this : MarkdownParser) (markdown : arg) : result html :=
  try_catch (parse_try this markdown)
            (fun _ => Ok (escapeHtml (text_of markdown))).

(** [parseMarkdown(markdown, options)]: [renderHTML] picks the instance. *)
Definition parseMarkdown (markdown : arg) (renderHTML : option bool) : result html :=
  let parser := match renderHTML with
                | Some true => unsafeMarkdownParser
                | _ => defaultMarkdownParser
                end in
  parse parser markdown.

End Parse.

(** *** Predicates on the returned HTML *)

Definition lower (c : N) : N :=
  if ((65 <=? c) && (c <=? 90))%N then (c + 32)%N else c.

(** The tag name is [script], in any letter case. *)
Definition is_script (tag : str) : bool :=
  str_eqb (List.map lower tag) (lit "script").

(** The attribute name starts with [on], in any letter case. *)
Definition is_on_attr (name : str) : bool :=
  match List.map lower name with
  | o :: n :: _ => ((o =? 111) && (n =? 110))%N
  | _ => false
  end.

(** Every element of the forest has a tag and attribute names accepted by
    [okTag] and [okAttr]. *)
Fixpoint node_all (okTag okAttr : str -> bool) (n : node) : bool :=
  match n with
  | Text _ => true
  | Element tag attrs children =>
      okTag tag && forallb (fun a => okAttr (fst a)) attrs
      && forallb (node_all okTag okAttr) children
  end.

Definition html_all (okTag okAttr : str -> bool) (h : html) : bool :=
  forallb (node_all okTag okAttr) h.

(** No [<script>] element and no [on*] attribute anywhere. *)
Definition script_free (h : html) : bool :=
  html_all (fun t => negb (is_script t)) (fun a => negb (is_on_attr a)) h.

Definition mem (x : str) (l : list str) : bool := existsb (str_eqb x) l.

Definition tag_allowed (cfg : SanitizeConfig) (tag : str) : bool :=
  mem tag (ALLOWED_TAGS cfg).

Definition has_prefix (p s : str) : bool :=
  str_eqb (take (length p) s) p.

(** The attribute name is on the allow-list ([ADD_ATTR] extends it). *)
Definition attr_listed (cfg : SanitizeConfig) (name : str) : bool :=
  mem name (ALLOWED_ATTR cfg) || mem name (ADD_ATTR cfg).

(** Modelled from the spec: the contract of [DOMPurify.sanitize], an
    external library that is not part of the repository.  "The HTML is
    passed through a sanitizer allow-listing exactly this tag set ... and
    this attribute set ... Data-attributes are stripped": every element of
    the result has an allow-listed tag, and every attribute of the result
    is allow-listed.  The contract is kept permissive where the library has
    defaults the configuration leaves alone: [data-*] attributes pass when
    [ALLOW_DATA_ATTR] is set, and [aria-*] attributes pass. *)
Definition attr_permitted (cfg : SanitizeConfig) (name : str) : bool :=
  attr_listed cfg name
  || (ALLOW_DATA_ATTR cfg && has_prefix (lit "data-") name)
  || has_prefix (lit "aria-") name.

Definition allowlisted (cfg : SanitizeConfig) (h : html) : bool :=
  html_all (tag_allowed cfg) (attr_permitted cfg) h.

Definition honours_allowlist
    (DOMPurify_sanitize : SanitizeConfig -> html -> result html) : Prop :=
  forall cfg dirty clean,
    DOMPurify_sanitize cfg dirty = Ok clean -> allowlisted cfg clean = true.

(** Modelled from the spec: a sanitizer that does what the glossary says,
    "stripping of HTML/attributes not on an explicit allow-list".  An
    element whose tag is not allow-listed is stripped and its sanitized
    content stays in place; an attribute that is not allow-listed is
    stripped. *)
Fixpoint sanitize_node (cfg : SanitizeConfig) (n : node) : list node :=
  match n with
  | Text d => [Text d]
  | Element tag attrs children =>
      let kept := flat_map (sanitize_node cfg) children in
      if tag_allowed cfg tag
      then [Element tag (List.filter (fun a => attr_listed cfg (fst a)) attrs) kept]
      else kept
  end.

Definition sanitize_model (cfg : SanitizeConfig) (dirty : html) : result html :=
  Ok (flat_map (sanitize_node cfg) dirty).

End Renderer.

(** ** Local-storage persistence

    Records are JSON data: [null], booleans, numbers, strings, arrays and
    objects.  Numbers are the safe integers (floating point is outside the
    model).  An object is the list of its own enumerable properties in
    enumeration order; a property added to an object goes last (JavaScript
    moves integer-like keys to the front, which changes neither the
    properties nor the size of the serialisation).  localStorage maps keys to
    strings and is modelled without a quota: [setItem] does not throw.
    [JSON.stringify] and [JSON.parse] are written out on this data. *)

Module Store.

Inductive json : Type :=
  | JNull
  | JBool (b : bool)
  | JNumber (n : Z)
  | JString (s : str)
  | JArray (items : list json)
  | JObject (fields : list (str * json)).

Abbreviation object := (list (str * json)).

(** *** JSON.stringify *)

Fixpoint uint_digits (d : Decimal.uint) : str :=
  match d with
  | Decimal.Nil => []
  | Decimal.D0 d => 48%N :: uint_digits d
  | Decimal.D1 d => 49%N :: uint_digits d
  | Decimal.D2 d => 50%N :: uint_digits d
  | Decimal.D3 d => 51%N :: uint_digits d
  | Decimal.D4 d => 52%N :: uint_digits d
  | Decimal.D5 d => 53%N :: uint_digits d
  | Decimal.D6 d => 54%N :: uint_digits d
  | Decimal.D7 d => 55%N :: uint_digits d
  | Decimal.D8 d => 56%N :: uint_digits d
  | Decimal.D9 d => 57%N :: uint_digits d
  end.

(** [String(i)] for an array index. *)
Definition index_key (i : nat) : str := uint_digits (Nat.to_uint i).

(** [Number::toString] on an integer. *)
Definition number_text (n : Z) : str :=
  match Z.to_int n with
  | Decimal.Pos d => uint_digits d
  | Decimal.Neg d => DASH :: uint_digits d
  end.

Definition hex_digit (n : N) : N :=
  (if n <? 10 then 48 + n else 87 + n)%N.

(** [\uXXXX] with lower-case hexadecimal digits. *)
Definition unicode_escape (c : N) : str :=
  [92; 117; hex_digit ((c / 4096) mod 16); hex_digit ((c / 256) mod 16);
   hex_digit ((c / 16) mod 16); hex_digit (c mod 16)]%N.

Definition is_high_surrogate (c : N) : bool := ((55296 <=? c) && (c <=? 56319))%N.
Definition is_low_surrogate (c : N) : bool := ((56320 <=? c) && (c <=? 57343))%N.

(** The body of QuoteJSONString: short escapes, [\u] escapes for control
    characters and lone surrogates, everything else verbatim. *)
Fixpoint quote_chars (s : str) : str :=
  match s with
  | [] => []
  | c :: s' =>
      if (c =? 8)%N then lit "\b" ++ quote_chars s'
      else if (c =? 9)%N then lit "\t" ++ quote_chars s'
      else if (c =? 10)%N then lit "\n" ++ quote_chars s'
      else if (c =? 12)%N then lit "\f" ++ quote_chars s'
      else if (c =? 13)%N then lit "\r" ++ quote_chars s'
      else if (c =? 34)%N then [92; 34]%N ++ quote_chars s'
      else if (c =? 92)%N then [92; 92]%N ++ quote_chars s'
      else if (c <? 32)%N then unicode_escape c ++ quote_chars s'
      else if is_high_surrogate c then
        match s' with
        | d :: s'' =>
            if is_low_surrogate d then c :: d :: quote_chars s''
            else unicode_escape c ++ quote_chars s'
        | [] => unicode_escape c
        end
      else if is_low_surrogate c then unicode_escape c ++ quote_chars s'
      else c :: quote_chars s'
  end.

Definition quote (s : str) : str := [34%N] ++ quote_chars s ++ [34%N].

(** [a.join(',')] on already serialised parts. *)
Fixpoint commas (parts : list str) : str :=
  match parts with
  | [] => []
  | [p] => p
  | p :: ps => p ++ 44%N :: commas ps
  end.

Fixpoint stringify_text (v : json) : str :=
  match v with
  | JNull => lit "null"
  | JBool true => lit "true"
  | JBool false => lit "false"
  | JNumber n => number_text n
  | JString s => quote s
  | JArray items => [91%N] ++ commas (List.map stringify_text items) ++ [93%N]
  | JObject fields =>
      [123%N]
      ++ commas (List.map (fun kv => quote (fst kv) ++ 58%N :: stringify_text (snd kv)) fields)
      ++ [125%N]
  end.

(** [new Blob([s]).size]: the length of the UTF-8 encoding of [s]. *)
Fixpoint utf8_length (s : str) : Z :=
  match s with
  | [] => 0
  | c :: s' =>
      if (c <? 128)%N then 1 + utf8_length s'
      else if (c <? 2048)%N then 2 + utf8_length s'
      else if is_high_surrogate c then
        match s' with
        | d :: s'' =>
            if is_low_surrogate d then 4 + utf8_length s''
            else 3 + utf8_length s'
        | [] => 3
        end
      else 3 + utf8_length s'
  end.

(** *** Objects *)

(** [o[k]] on the own properties: [None] is [undefined]. *)
Fixpoint get (k : str) (o : object) : option json :=
  match o with
  | [] => None
  | (k', v) :: o' => if str_eqb k k' then Some v else get k o'
  end.

(** [o[k] = v]: an existing property keeps its place. *)
Fixpoint set (k : str) (v : json) (o : object) : object :=
  match o with
  | [] => [(k, v)]
  | (k', v') :: o' =>
      if str_eqb k k' then (k, v) :: o' else (k', v') :: set k v o'
  end.

(** The properties [{...o}] copies, left to right, into [target]. *)
Definition assign (target : object) (source : object) : object :=
  fold_left (fun acc kv => set (fst kv) (snd kv) acc) source target.

(** *** JSON.parse

    A recursive-descent reading of the JSON grammar: white space, the three
    keywords, string literals with their escapes, arrays and objects (a
    repeated key keeps its first place and its last value).  Number literals
    are read when they denote a safe integer; a fraction, an exponent or a
    larger magnitude is outside the model and is rejected like a syntax
    error.  [fuel] bounds the recursion; [JSON_parse] provides two units per
    character, more than the descent can use. *)

Definition is_json_ws (c : N) : bool :=
  ((c =? 32) || (c =? 9) || (c =? 10) || (c =? 13))%N.

Fixpoint skip_ws (s : str) : str :=
  match s with
  | [] => []
  | c :: r => if is_json_ws c then skip_ws r else s
  end.

Definition hex_value (c : N) : option N :=
  (if (48 <=? c) && (c <=? 57) then Some (c - 48)
   else if (97 <=? c) && (c <=? 102) then Some (c - 87)
   else if (65 <=? c) && (c <=? 70) then Some (c - 55)
   else None)%N.

Definition hex4 (a b c d : N) : option N :=
  match hex_value a, hex_value b, hex_value c, hex_value d with
  | Some a, Some b, Some c, Some d => Some (a * 4096 + b * 256 + c * 16 + d)%N
  | _, _, _, _ => None
  end.

(** The character a two-character escape stands for. *)
Definition escape_char (e : N) : option N :=
  (if e =? 34 then Some 34
   else if e =? 92 then Some 92
   else if e =? 47 then Some 47
   else if e =? 98 then Some 8
   else if e =? 102 then Some 12
   else if e =? 110 then Some 10
   else if e =? 114 then Some 13
   else if e =? 116 then Some 9
   else None)%N.

Definition push {A} (c : N) (r : option (str * A)) : option (str * A) :=
  match r with
  | Some (s, rest) => Some (c :: s, rest)
  | None => None
  end.

(** The characters of a string literal after its opening quote, and what
    follows the closing quote. *)
Fixpoint parse_chars (s : str) : option (str * str) :=
  match s with
  | [] => None
  | c :: r =>
      if (c =? 34)%N then Some ([], r)
      else if (c =? 92)%N then
        match r with
        | [] => None
        | e :: r1 =>
            if (e =? 117)%N then
              match r1 with
              | a :: b :: c' :: d :: r2 =>
                  match hex4 a b c' d with
                  | Some u => push u (parse_chars r2)
                  | None => None
                  end
              | _ => None
              end
            else
              match escape_char e with
              | Some u => push u (parse_chars r1)
              | None => None
              end
        end
      else if (c <? 32)%N then None
      else push c (parse_chars r)
  end.

Definition digit_of (c : N) : option (Decimal.uint -> Decimal.uint) :=
  (if c =? 48 then Some Decimal.D0
   else if c =? 49 then Some Decimal.D1
   else if c =? 50 then Some Decimal.D2
   else if c =? 51 then Some Decimal.D3
   else if c =? 52 then Some Decimal.D4
   else if c =? 53 then Some Decimal.D5
   else if c =? 54 then Some Decimal.D6
   else if c =? 55 then Some Decimal.D7
   else if c =? 56 then Some Decimal.D8
   else if c =? 57 then Some Decimal.D9
   else None)%N.

(** The longest run of digits at the front of [s]. *)
Fixpoint read_digits (s : str) : Decimal.uint * str :=
  match s with
  | [] => (Decimal.Nil, [])
  | c :: r =>
      match digit_of c with
      | Some digit => let (d, rest) := read_digits r in (digit d, rest)
      | None => (Decimal.Nil, s)
      end
  end.

Definition MAX_SAFE_INTEGER : Z := 9007199254740991.

(** An integer part: one digit at least, no leading zero. *)
Definition integer_part (d : Decimal.uint) : bool :=
  match d with
  | Decimal.Nil => false
  | Decimal.D0 Decimal.Nil => true
  | Decimal.D0 _ => false
  | _ => true
  end.

(** What follows the integer part starts a fraction or an exponent. *)
Definition continues_number (rest : str) : bool :=
  match rest with
  | c :: _ => ((c =? 46) || (c =? 101) || (c =? 69))%N
  | [] => false
  end.

(** The digits of a number literal after its sign. *)
Definition parse_digits (negative : bool) (s : str) : option (json * str) :=
  let (d, rest) := read_digits s in
  if integer_part d && negb (continues_number rest) then
    let n := Z.of_uint d in
    if n <=? MAX_SAFE_INTEGER
    then Some (JNumber (if negative then - n else n), rest)
    else None
  else None.

Definition parse_number (s : str) : option (json * str) :=
  match s with
  | c :: r => if (c =? 45)%N then parse_digits true r else parse_digits false s
  | [] => None
  end.

(** [s] starts with [prefix]: what follows it. *)
Fixpoint strip_prefix (prefix s : str) : option str :=
  match prefix, s with
  | [], _ => Some s
  | p :: prefix', c :: s' => if (p =? c)%N then strip_prefix prefix' s' else None
  | _ :: _, [] => None
  end.

Definition keyword (word : str) (v : json) (s : str) : option (json * str) :=
  match strip_prefix word s with
  | Some rest => Some (v, rest)
  | None => None
  end.

Fixpoint parse_value (fuel : nat) (s : str) : option (json * str) :=
  match fuel with
  | O => None
  | S fuel =>
      match skip_ws s with
      | [] => None
      | c :: r =>
          if (c =? 34)%N then
            match parse_chars r with
            | Some (chars, rest) => Some (JString chars, rest)
            | None => None
            end
          else if (c =? 91)%N then
            match skip_ws r with
            | [] => None
            | c' :: r' =>
                if (c' =? 93)%N then Some (JArray [], r')
                else match parse_elements fuel r with
                     | Some (items, rest) => Some (JArray items, rest)
                     | None => None
                     end
            end
          else if (c =? 123)%N then
            match skip_ws r with
            | [] => None
            | c' :: r' =>
                if (c' =? 125)%N then Some (JObject [], r')
                else match parse_members fuel r with
                     | Some (members, rest) => Some (JObject (assign [] members), rest)
                     | None => None
                     end
            end
          else if (c =? 110)%N then keyword (lit "null") JNull (c :: r)
          else if (c =? 116)%N then keyword (lit "true") (JBool true) (c :: r)
          else if (c =? 102)%N then keyword (lit "false") (JBool false) (c :: r)
          else parse_number (c :: r)
      end
  end
with parse_elements (fuel : nat) (s : str) : option (list json * str) :=
  match fuel with
  | O => None
  | S fuel =>
      match parse_value fuel s with
      | None => None
      | Some (v, r) =>
          match skip_ws r with
          | [] => None
          | c :: r' =>
              if (c =? 44)%N then
                match parse_elements fuel r' with
                | Some (vs, rest) => Some (v :: vs, rest)
                | None => None
                end
              else if (c =? 93)%N then Some ([v], r')
              else None
          end
      end
  end
with parse_members (fuel : nat) (s : str) : option (object * str) :=
  match fuel with
  | O => None
  | S fuel =>
      match skip_ws s with
      | [] => None
      | q :: r =>
          if (q =? 34)%N then
            match parse_chars r with
            | None => None
            | Some (k, r1) =>
                match skip_ws r1 with
                | [] => None
                | c1 :: r2 =>
                    if (c1 =? 58)%N then
                      match parse_value fuel r2 with
                      | None => None
                      | Some (v, r3) =>
                          match skip_ws r3 with
                          | [] => None
                          | c :: r4 =>
                              if (c =? 44)%N then
                                match parse_members fuel r4 with
                                | Some (ms, rest) => Some ((k, v) :: ms, rest)
                                | None => None
                                end
                              else if (c =? 125)%N then Some ([(k, v)], r4)
                              else None
                          end
                      end
                    else None
                end
            end
          else None
      end
  end.

(** What may follow a value inside [JSON.stringify] output: nothing, a
    comma or a closing bracket. *)
Definition delimited (rest : str) : bool :=
  match rest with
  | [] => true
  | c :: _ => ((c =? 44) || (c =? 93) || (c =? 125))%N
  end.

(** [JSON.stringify(v)] and [JSON.parse(s)] *)
Definition JSON_stringify (v : json) : str := stringify_text v.

Definition JSON_parse (s : str) : result json :=
  match parse_value (2 * length s + 2) s with
  | Some (v, rest) =>
      match skip_ws rest with
      | [] => Ok v
      | _ => Throw SyntaxError
      end
  | None => Throw SyntaxError
  end.

(** [parse_value] reads the serialisation of [v] back, whatever delimiter
    follows it, with fuel for its characters. *)
Definition reads_back (v : json) : Prop :=
  forall fuel rest,
    (length (stringify_text v) <= fuel)%nat -> delimited rest = true ->
    parse_value fuel (stringify_text v ++ rest) = Some (v, rest).

(** [new Blob([s]).size] *)
Definition Blob_size (s : str) : Z := utf8_length s.

(** JSON data as JavaScript has it: no key twice in an object, numbers
    within the safe integers. *)
Fixpoint well_formed (v : json) : bool :=
  match v with
  | JNumber n => Z.abs n <=? MAX_SAFE_INTEGER
  | JArray items => forallb well_formed items
  | JObject fields =>
      bool_decide (NoDup (List.map fst fields))
      && forallb (fun kv => well_formed (snd kv)) fields
  | _ => true
  end.

(** Truthiness of a string: non-empty. *)
Definition truthy_str (s : str) : bool :=
  match s with
  | [] => false
  | _ => true
  end.

(** Truthiness of a JSON value. *)
Definition truthy (v : json) : bool :=
  match v with
  | JNull => false
  | JBool b => b
  | JNumber n => negb (n =? 0)
  | JString s => truthy_str s
  | JArray _ | JObject _ => true
  end.

(** *** Objects, continued *)

(** Index-keyed properties of an array or of a string. *)
Definition indexed (items : list json) : object :=
  imap (fun i x => (index_key i, x)) items.

(** Own enumerable properties of a value, as spread and object rest see
    them ([null], numbers and booleans have none). *)
Definition own_properties (v : json) : object :=
  match v with
  | JObject fields => fields
  | JArray items => indexed items
  | JString s => indexed (List.map (fun c => JString [c]) s)
  | _ => []
  end.

(** [v.k] for a name [k] that is neither an index nor a built-in member:
    reading a property of [null] is a TypeError. *)
Definition member (v : json) (k : str) : result (option json) :=
  match v with
  | JNull => Throw TypeError
  | JObject fields => Ok (get k fields)
  | _ => Ok None
  end.

(** *** localStorage *)

Abbreviation storage := (gmap str str).

Definition storage_key (chatflowid : str) : str := chatflowid ++ lit "_EXTERNAL".

Definition getItem (k : str) (ls : storage) : option str := ls !! k.
Definition setItem (k : str) (t : str) (ls : storage) : storage := <[k := t]> ls.
Definition removeItem (k : str) (ls : storage) : storage := delete k ls.

(** *** setLocalStorageChatflow *)

Definition MAX_HISTORY : nat := 30.
Definition MAX_BYTES : Z := 2000.

Definition heavy_fields : list str :=
  [lit "agentReasoning"; lit "sourceDocuments"; lit "artifacts"].

Definition is_heavy (k : str) : bool := existsb (str_eqb k) heavy_fields.

(** [const { agentReasoning, sourceDocuments, artifacts, ...rest } = msg;
    return rest]: destructuring [null] is a TypeError. *)
Definition strip (msg : json) : result json :=
  match msg with
  | JNull => Throw TypeError
  | _ => Ok (JObject (List.filter (fun kv => negb (is_heavy (fst kv)))
                                  (own_properties msg)))
  end.

(** What [strip] returns when it returns. *)
Definition stripped (msg : json) : json :=
  JObject (List.filter (fun kv => negb (is_heavy (fst kv))) (own_properties msg)).

(** [a.slice(-n)] *)
Definition slice_last {A} (n : nat) (a : list A) : list A :=
  drop (length a - n)%nat a.

(** [a.map(f)] for a callback that may throw. *)
Fixpoint map_result {A B} (f : A -> result B) (a : list A) : result (list B) :=
  match a with
  | [] => Ok []
  | x :: a' =>
      let* y := f x in
      let* ys := map_result f a' in
      Ok (y :: ys)
  end.

(** The object built before the size check: the copy of [saveObj] with
    [chatId] merged in and [chatHistory] trimmed. *)
Definition prepare (chatId : str) (saveObj : object) : result object :=
  let obj := saveObj in   (* { ...saveObj }: the same properties *)
  let obj := if truthy_str chatId then set (lit "chatId") (JString chatId) obj else obj in
  match get (lit "chatHistory") obj with
  | Some (JArray chatHistory) =>
      let* trimmed := map_result strip (slice_last MAX_HISTORY chatHistory) in
      Ok (set (lit "chatHistory") (JArray trimmed) obj)
  | _ => Ok obj
  end.

(** The [try] block, run once the size check has passed. *)
Definition write_merged (k : str) (obj : object) (ls : storage) : result storage :=
  match getItem k ls with
  | Some chatDetails =>
      if truthy_str chatDetails then
        let* parsed := JSON_parse chatDetails in
        let merged := assign (own_properties parsed) obj in
        let merged :=
          match get (lit "chatHistory") obj with
          | Some h => if truthy h then set (lit "chatHistory") h merged else merged
          | None => merged
          end in
        Ok (setItem k (JSON_stringify (JObject merged)) ls)
      else Ok (setItem k (JSON_stringify (JObject obj)) ls)
  | None => Ok (setItem k (JSON_stringify (JObject obj)) ls)
  end.

(** The outcome ([Ok tt] for a normal return) and the storage left. *)
Definition setLocalStorageChatflow (chatflowid chatId : str) (saveObj : object)
    (ls : storage) : result unit * storage :=
  match prepare chatId saveObj with
  | Throw e => (Throw e, ls)
  | Ok obj =>
      let jsonStr := JSON_stringify (JObject obj) in
      let byteSize := Blob_size jsonStr in
      if MAX_BYTES <? byteSize then (Ok tt, ls)
      else
        match write_merged (storage_key chatflowid) obj ls with
        | Ok ls' => (Ok tt, ls')
        | Throw _ =>
            (Ok tt, setItem (storage_key chatflowid)
                            (JSON_stringify (JObject [(lit "chatId", JString chatId)])) ls)
        end
  end.

(** An entry that cannot be destructured. *)
Definition is_null_entry (msg : json) : bool :=
  match msg with
  | JNull => true
  | _ => false
  end.

(** One of the entries [slice(-MAX_HISTORY)] keeps is [null]. *)
Definition null_in_history (saveObj : object) : bool :=
  match get (lit "chatHistory") saveObj with
  | Some (JArray entries) => existsb is_null_entry (slice_last MAX_HISTORY entries)
  | _ => false
  end.

(** *** getLocalStorageChatflow *)

Definition getLocalStorageChatflow (chatflowid : str) (ls : storage) : json :=
  match getItem (storage_key chatflowid) ls with
  | Some chatDetails =>
      if truthy_str chatDetails then
        match JSON_parse chatDetails with
        | Ok v => v
        | Throw _ => JObject []
        end
      else JObject []
  | None => JObject []
  end.

(** *** removeLocalStorageChatHistory *)

Definition removeLocalStorageChatHistory (chatflowid : str) (ls : storage) : storage :=
  let k := storage_key chatflowid in
  match getItem k ls with
  | Some chatDetails =>
      if truthy_str chatDetails then
        match (let* parsedChatDetails := JSON_parse chatDetails in
               member parsedChatDetails (lit "lead")) with
        | Ok (Some lead) =>
            if truthy lead then
              setItem k (JSON_stringify (JObject [(lit "lead", lead)])) (removeItem k ls)
            else removeItem k ls
        | Ok None => removeItem k ls
        | Throw _ => ls
        end
      else ls
  | None => ls
  end.

(** *** Sequences of operations *)

Inductive op : Type :=
  | Save (chatflowid chatId : str) (saveObj : object)
  | Load (chatflowid : str)
  | ClearHistory (chatflowid : str).

Definition step (ls : storage) (o : op) : storage :=
  match o with
  | Save chatflowid chatId saveObj =>
      snd (setLocalStorageChatflow chatflowid chatId saveObj ls)
  | Load _ => ls
  | ClearHistory chatflowid => removeLocalStorageChatHistory chatflowid ls
  end.

Definition run (ops : list op) (ls : storage) : storage := fold_left step ops ls.

(** The record passed to [Save], once trimmed, passes the size check. *)
Definition within_cap (o : op) : bool :=
  match o with
  | Save _ chatId saveObj =>
      match prepare chatId saveObj with
      | Ok obj => Blob_size (JSON_stringify (JObject obj)) <=? MAX_BYTES
      | Throw _ => false
      end
  | _ => true
  end.

(** The record passed to [Save] is JSON data. *)
Definition json_data (o : op) : bool :=
  match o with
  | Save _ _ saveObj => well_formed (JObject saveObj)
  | _ => true
  end.

(** The [chatHistory] of a stored text, when it is an array. *)
Definition stored_history (t : str) : option (list json) :=
  match JSON_parse t with
  | Ok (JObject fields) =>
      match get (lit "chatHistory") fields with
      | Some (JArray h) => Some h
      | _ => None
      end
  | _ => None
  end.

(** Every stored history has at most [MAX_HISTORY] entries. *)
Definition history_bounded (ls : storage) : Prop :=
  forall k t h,
    ls !! k = Some t -> stored_history t = Some h -> (length h <= MAX_HISTORY)%nat.

End Store.

(** ** highlightCode

    The callback markdown-it calls for a fenced code block.  highlight.js
    and [md.utils.escapeHtml] are external and may throw; the class's own
    [escapeHtml] serialises a text node.  The value returned is the HTML
    text itself. *)

Module Highlight.

Definition QUOTE : N := 34%N.   (* the double quote *)

(** The opening of the container with the [hljs] class, the plain opening
    of the last fallback, and the closing. *)
Definition PRE_HLJS : str :=
  lit "<pre class=" ++ [QUOTE] ++ lit "hljs" ++ [QUOTE] ++ lit "><code>".
Definition PRE_PLAIN : str := lit "<pre><code>".
Definition PRE_CLOSE : str := lit "</code></pre>".

Section HighlightCode.

(** [hljs.getLanguage(lang)], as its truthiness. *)
Variable hljs_getLanguage : str -> result bool.
(** [hljs.highlight(str, { language: lang, ignoreIllegals: true }).value] *)
Variable hljs_highlight : str -> str -> result str.
(** [this.md.utils.escapeHtml(str)] *)
Variable md_utils_escapeHtml : str -> result str.
(** [this.escapeHtml(str)] *)
Variable this_escapeHtml : str -> str.

(** The statements after the first [if]: "use default escaping". *)
Definition defaultEscaping (code : str) : result str :=
  try_catch
    (let* escaped := md_utils_escapeHtml code in
     Ok (PRE_HLJS ++ escaped ++ PRE_CLOSE))
    (fun _ => Ok (PRE_PLAIN ++ this_escapeHtml code ++ PRE_CLOSE)).

(** [lang && hljs.getLanguage(lang)]: the empty string is falsy and the
    lookup is not made. *)
Definition languageKnown (lang : str) : result bool :=
  match lang with
  | [] => Ok false
  | _ => hljs_getLanguage lang
  end.

Definition highlightCode (code lang : str) : result str :=
  let* known := languageKnown lang in
  if known then
    try_catch
      (let* value := hljs_highlight code lang in
       Ok (PRE_HLJS ++ value ++ PRE_CLOSE))
      (fun _ => defaultEscaping code)   (* logged; falls through *)
  else defaultEscaping code.

End HighlightCode.

End Highlight.

(** ** Small utilities *)

Module Utils.

(** A value that may be [undefined] or [null]. *)
Inductive maybe (T : Type) : Type :=
  | Undefined
  | Null
  | Value (v : T).
Arguments Undefined {T}.
Arguments Null {T}.
Arguments Value {T} v.

Definition is_undefined {T} (value : maybe T) : bool :=
  match value with Undefined => true | _ => false end.

Definition is_null {T} (value : maybe T) : bool :=
  match value with Null => true | _ => false end.

(** [value === ''] *)
Definition is_empty_string (value : maybe str) : bool :=
  match value with Value [] => true | _ => false end.

Definition isNotDefined {T} (value : maybe T) : bool :=
  is_undefined value || is_null value.

Definition isDefined {T} (value : maybe T) : bool :=
  negb (is_undefined value) && negb (is_null value).

Definition isEmpty (value : maybe str) : bool :=
  is_undefined value || is_null value || is_empty_string value.

Definition isNotEmpty (value : maybe str) : bool :=
  negb (is_undefined value) && negb (is_null value) && negb (is_empty_string value).

(** *** getBubbleButtonSize

    The argument is a size name, a number or [undefined]; numbers are the
    integers (floating point is outside the model). *)
Inductive size_option : Type :=
  | SizeUndefined
  | SizeNumber (n : Z)
  | SizeName (s : str).

(** [!size] *)
Definition size_falsy (size : size_option) : bool :=
  match size with
  | SizeUndefined => true
  | SizeNumber n => n =? 0
  | SizeName s => negb (Store.truthy_str s)
  end.

Definition getBubbleButtonSize (size : size_option) : Z :=
  if size_falsy size then 48
  else
    match size with
    | SizeNumber n => n
    | SizeName s =>
        if str_eqb s (lit "small") then 32
        else if str_eqb s (lit "medium") then 48
        else if str_eqb s (lit "large") then 64
        else 48
    | SizeUndefined => 48
    end.

(** *** getCookie *)

Definition SEMICOLON : N := 59%N.
Definition SPACE : N := 32%N.
Definition EQUALS : N := 61%N.

(** [while (c.charAt(0) === ' ') c = c.substring(1)] *)
Fixpoint skipSpaces (c : str) : str :=
  match c with
  | x :: c' => if (x =? SPACE)%N then skipSpaces c' else c
  | [] => []
  end.

(** [c.indexOf(name) === 0] *)
Definition indexOf_is_0 (name c : str) : bool :=
  str_eqb (take (length name) c) name.

(** The [for] loop over [ca], with its early [return], and the final
    [return ''] *)
Fixpoint scanCookies (name : str) (ca : list str) : str :=
  match ca with
  | [] => []
  | c0 :: rest =>
      let c := skipSpaces c0 in
      if indexOf_is_0 name c then drop (length name) c   (* c.substring(name.length, c.length) *)
      else scanCookies name rest
  end.

Section Cookie.

(** [decodeURIComponent]: a URIError on a malformed escape sequence. *)
Variable decodeURIComponent : str -> result str.

(** [document_cookie] is what the [document.cookie] getter returns. *)
Definition getCookie (cname : str) (document_cookie : str) : result str :=
  let name := cname ++ [EQUALS] in
  let* decodedCookie := decodeURIComponent document_cookie in
  let ca := split SEMICOLON decodedCookie in
  Ok (scanCookies name ca).

End Cookie.

(** The text the [document.cookie] getter returns for a list of cookies:
    [name=value] pairs separated by a semicolon and a space. *)
Definition pair_text (kv : str * str) : str := fst kv ++ EQUALS :: snd kv.

Fixpoint cookie_text (cookies : list (str * str)) : str :=
  match cookies with
  | [] => []
  | [kv] => pair_text kv
  | kv :: rest => pair_text kv ++ SEMICOLON :: SPACE :: cookie_text rest
  end.

(** The value of the first cookie with the given name. *)
Fixpoint cookie_value (cname : str) (cookies : list (str * str)) : option str :=
  match cookies with
  | [] => None
  | (n, v) :: rest => if str_eqb n cname then Some v else cookie_value cname rest
  end.

(** Names and values a cookie can have: no semicolon in either, no equals
    sign in the name, and a name does not start with a space. *)
Definition cookie_ok (kv : str * str) : bool :=
  negb (includes SEMICOLON (fst kv)) && negb (includes EQUALS (fst kv))
  && negb (startsWith SPACE (fst kv)) && negb (includes SEMICOLON (snd kv)).

End Utils.

(** ** sendRequest

    [fetch], the response and the [onRequest] hook are external: each
    [await] either yields a value or throws what the promise was rejected
    with.  [FormData] and [Blob] objects are only passed along. *)

Module Request.
Import Store Utils.

Inductive FormData : Type := mkFormData (id : nat).
Inductive Blob : Type := mkBlob (id : nat).

(** [body?: Record<string, unknown> | FormData] *)
Inductive body_param : Type :=
  | BodyRecord (fields : object)
  | BodyForm (form : FormData).

(** [RequestInit.body] *)
Inductive body_init : Type :=
  | BodyString (s : str)
  | BodyFormData (form : FormData).

Record RequestInit : Type := mkRequestInit {
  method : str;
  mode : str;
  headers : option object;
  body : option body_init
}.

(** The descriptor form of [params]; an optional property that is absent
    is [Undefined] or [None]. *)
Record descriptor : Type := mkDescriptor {
  p_url : str;
  p_method : str;
  p_body : maybe body_param;
  p_type : option str;
  p_headers : option object;
  p_formData : option FormData;
  p_onRequest : option (RequestInit -> result RequestInit)
      (* the hook may change the request it is handed, or reject *)
}.

Inductive params : Type :=
  | PString (url : str)
  | PDescriptor (d : descriptor).

(** A decoded response body: a JSON value (a string for [text()]) or a
    [Blob]. *)
Inductive data : Type :=
  | DJson (v : json)
  | DBlob (b : Blob).

Record Response : Type := mkResponse {
  ok : bool;
  statusText : str;
  contentType : option str;   (* response.headers.get('Content-Type') *)
  response_json : result json;
  response_blob : result Blob;
  response_text : result str
}.

(** What [throw] may carry: an exception object, or any value. *)
Inductive thrown : Type :=
  | Exception (e : exn)
  | Thrown (v : data).

(** The object returned: [{ data }] or [{ error }]. *)
Record reply : Type := mkReply {
  reply_data : option data;
  reply_error : option thrown
}.

(** [JSON.stringify(params.body)]: a [FormData] has no own enumerable
    property. *)
Definition stringify_body (b : body_param) : str :=
  match b with
  | BodyRecord fields => JSON_stringify (JObject fields)
  | BodyForm _ => JSON_stringify (JObject [])
  end.

(** [{ 'Content-Type': 'application/json', ...params.headers }] *)
Definition default_headers (extra : option object) : object :=
  assign [(lit "Content-Type", JString (lit "application/json"))]
         (match extra with Some h => h | None => [] end).

Definition requestInfo (p : params) : RequestInit :=
  match p with
  | PString _ => mkRequestInit (lit "GET") (lit "cors") None None
  | PDescriptor d =>
      let headers := if isDefined (p_body d) then Some (default_headers (p_headers d))
                     else None in
      let body := match p_body d with
                  | Value b => Some (BodyString (stringify_body b))
                  | _ => None
                  end in
      let body := match p_formData d with
                  | Some form => Some (BodyFormData form)
                  | None => body
                  end in
      mkRequestInit (p_method d) (lit "cors") headers body
  end.

Definition url_of (p : params) : str :=
  match p with
  | PString url => url
  | PDescriptor d => p_url d
  end.

(** [s.includes(needle)] *)
Fixpoint includes_text (needle s : str) : bool :=
  indexOf_is_0 needle s
  || match s with
     | [] => false
     | _ :: s' => includes_text needle s'
     end.

(** [contentType && contentType.includes('application/json')] *)
Definition is_json_response (response : Response) : bool :=
  match contentType response with
  | Some ct => truthy_str ct && includes_text (lit "application/json") ct
  | None => false
  end.

(** [typeof params !== 'string' && params.type === 'blob'] *)
Definition wants_blob (p : params) : bool :=
  match p with
  | PDescriptor d =>
      match p_type d with
      | Some t => str_eqb t (lit "blob")
      | None => false
      end
  | PString _ => false
  end.

Definition decode (p : params) (response : Response) : result data :=
  if is_json_response response then
    let* v := response_json response in Ok (DJson v)
  else if wants_blob p then
    let* b := response_blob response in Ok (DBlob b)
  else
    let* t := response_text response in Ok (DJson (JString t)).

(** [typeof data === 'object'] *)
Definition typeof_object (d : data) : bool :=
  match d with
  | DBlob _ => true
  | DJson (JNull | JArray _ | JObject _) => true
  | DJson _ => false
  end.

Definition data_truthy (d : data) : bool :=
  match d with
  | DBlob _ => true
  | DJson v => truthy v
  end.

(** What the [if (!response.ok)] block throws: ['error' in null] is a
    TypeError. *)
Definition errorMessage (response : Response) (d : data) : thrown :=
  let fallback := if data_truthy d then Thrown d
                  else Thrown (DJson (JString (statusText response))) in
  if typeof_object d then
    match d with
    | DJson JNull => Exception TypeError
    | DJson (JObject fields) =>
        match get (lit "error") fields with
        | Some e => Thrown (DJson e)
        | None => fallback
        end
    | _ => fallback
    end
  else fallback.

Section SendRequest.

Variable fetch : str -> RequestInit -> result Response.

(** The statements of the [try] block up to the decoded body. *)
Definition exchange (p : params) : result (Response * data) :=
  let request := requestInfo p in
  let* request :=
    match p with
    | PDescriptor d =>
        match p_onRequest d with
        | Some onRequest => onRequest request
        | None => Ok request
        end
    | PString _ => Ok request
    end in
  let* response := fetch (url_of p) request in
  let* d := decode p response in
  Ok (response, d).

Definition sendRequest (p : params) : reply :=
  match exchange p with
  | Ok (response, d) =>
      if negb (ok response) then mkReply None (Some (errorMessage response d))
      else mkReply (Some d) None
  | Throw e => mkReply None (Some (Exception e))
  end.

End SendRequest.

End Request.

(** * Proofs *)

(** ** Strings *)

Lemma includes_true c s : includes c s = true <-> In c s.
Proof.
  unfold includes. rewrite existsb_exists. split.
  - intros (x & Hx & E). apply N.eqb_eq in E. now subst.
  - intros H. exists c. split; [assumption | apply N.eqb_refl].
Qed.

Lemma includes_false c s : includes c s = false <-> ~ In c s.
Proof.
  rewrite <- includes_true. destruct (includes c s); split; intros; congruence.
Qed.

Lemma includes_app c a b : includes c (a ++ b) = includes c a || includes c b.
Proof. unfold includes. apply existsb_app. Qed.

Lemma includes_cons c x s : includes c (x :: s) = (c =? x)%N || includes c s.
Proof. reflexivity. Qed.

Lemma includes_rev c s : includes c (rev s) = includes c s.
Proof.
  destruct (includes c s) eqn:E.
  - apply includes_true. apply in_rev. rewrite rev_involutive.
    now apply includes_true.
  - apply includes_false. intros H. apply in_rev in H.
    now apply includes_false in E.
Qed.

Lemma trimStart_In c s : In c (trimStart s) -> In c s.
Proof.
  induction s as [|x s IH]; simpl; [tauto|].
  destruct (is_space x); [right; auto | auto].
Qed.

Lemma trim_In c s : In c (trim s) -> In c s.
Proof.
  unfold trim, trimEnd. intros H.
  apply in_rev in H. apply trimStart_In in H. apply in_rev in H.
  now apply trimStart_In.
Qed.

Lemma startsWith_In c s : startsWith c s = true -> In c s.
Proof.
  destruct s as [|x s]; simpl; [discriminate|].
  intros H. apply N.eqb_eq in H. now left.
Qed.

Lemma split_not_nil c s : split c s <> [].
Proof.
  destruct s as [|x s]; simpl; [discriminate|].
  destruct (x =? c)%N; [discriminate|]. destruct (split c s); discriminate.
Qed.

Lemma split_without c s : includes c s = false -> split c s = [s].
Proof.
  induction s as [|x s IH]; simpl; [reflexivity|].
  rewrite N.eqb_sym. destruct (x =? c)%N; simpl; [discriminate|].
  intros H. now rewrite IH.
Qed.

Lemma split_app c a b :
  includes c a = false -> split c (a ++ c :: b) = a :: split c b.
Proof.
  induction a as [|x a IH]; simpl.
  - now rewrite N.eqb_refl.
  - rewrite N.eqb_sym. destruct (x =? c)%N; simpl; [discriminate|].
    intros H. now rewrite IH.
Qed.

Lemma split_segments c s : Forall (fun seg => includes c seg = false) (split c s).
Proof.
  induction s as [|x s IH]; simpl.
  - now constructor.
  - destruct (x =? c)%N eqn:E.
    + constructor; [reflexivity | assumption].
    + destruct (split c s) as [|seg segs]; [repeat constructor|].
      * simpl. now rewrite N.eqb_sym, E.
      * inversion IH; subst. constructor; [|assumption].
        simpl. rewrite N.eqb_sym, E. assumption.
Qed.

Lemma split_join c l :
  l <> [] -> Forall (fun seg => includes c seg = false) l ->
  split c (join c l) = l.
Proof.
  induction l as [|s l IH]; [congruence|].
  intros _ H. inversion H as [|? ? Hs Hl]; subst.
  destruct l as [|s' l'].
  - simpl. now apply split_without.
  - change (join c (s :: s' :: l')) with (s ++ c :: join c (s' :: l')).
    rewrite split_app by assumption. f_equal. now apply IH.
Qed.

Lemma join_includes c d l :
  includes d (join c l) = true -> d <> c -> exists s, In s l /\ includes d s = true.
Proof.
  induction l as [|s l IH]; simpl; [discriminate|].
  destruct l as [|s' l'].
  - intros H _. exists s. now split; [left|].
  - rewrite includes_app, includes_cons. intros H Hne.
    apply orb_true_iff in H as [H|H].
    + exists s. now split; [left|].
    + apply orb_true_iff in H as [H|H].
      * apply N.eqb_eq in H. congruence.
      * destruct (IH H Hne) as (x & Hx & E). exists x. split; [now right | assumption].
Qed.

Lemma join_split c s : join c (split c s) = s.
Proof.
  induction s as [|x s IH]; [reflexivity|]. cbn [split].
  pose proof (split_not_nil c s) as Hne.
  destruct (N.eqb_spec x c) as [->|_].
  - destruct (split c s) as [|seg segs]; [congruence|].
    change (join c ([] :: seg :: segs)) with (c :: join c (seg :: segs)).
    now rewrite IH.
  - destruct (split c s) as [|seg segs]; [congruence|].
    rewrite <- IH. now destruct segs.
Qed.

Lemma split_segment_In c s seg x : In seg (split c s) -> In x seg -> In x s.
Proof.
  revert seg. induction s as [|y s IH]; intros seg Hseg Hx.
  - destruct Hseg as [<-|[]]. destruct Hx.
  - cbn [split] in Hseg. destruct (y =? c)%N.
    + destruct Hseg as [<-|Hseg]; [destruct Hx | right; eauto].
    + destruct (split c s) as [|seg0 segs].
      * destruct Hseg as [<-|[]]. destruct Hx as [<-|[]]. now left.
      * destruct Hseg as [<-|Hseg].
        -- destruct Hx as [<-|Hx]; [now left | right]. apply (IH seg0); [now left | assumption].
        -- right. apply (IH seg); [now right | assumption].
Qed.

(** ** Regular expressions: [test] decides [lang] *)

Lemma nullable_lang r : nullable r = true <-> lang r [].
Proof.
  split.
  - induction r; simpl; intros H; try discriminate.
    + constructor.
    + apply andb_true_iff in H as [H1 H2].
      change (@nil N) with (@nil N ++ []). constructor; auto.
    + apply orb_true_iff in H as [H|H]; [apply lang_alt_l | apply lang_alt_r]; auto.
    + constructor.
  - intros H. remember [] as s eqn:E. induction H; simpl; try reflexivity; try discriminate.
    + apply app_eq_nil in E as [-> ->].
      rewrite IHlang1, IHlang2 by reflexivity. reflexivity.
    + rewrite IHlang by assumption. reflexivity.
    + rewrite IHlang by assumption. apply orb_true_r.
Qed.

Lemma deriv_sound c r : forall s, lang (deriv c r) s -> lang r (c :: s).
Proof.
  induction r; simpl; intros s H.
  - inversion H.
  - inversion H.
  - destruct (p c) eqn:E; inversion H; subst. now constructor.
  - inversion H; subst.
    + match goal with H' : lang (Seq _ _) _ |- _ => inversion H'; subst end.
      change (c :: s1 ++ s2) with ((c :: s1) ++ s2). constructor; auto.
    + destruct (nullable r1) eqn:E; [|match goal with H' : lang Fail _ |- _ => inversion H' end].
      change (c :: s) with ([] ++ c :: s). constructor; [now apply nullable_lang | auto].
  - inversion H; subst; [apply lang_alt_l | apply lang_alt_r]; auto.
  - inversion H; subst.
    change (c :: s1 ++ s2) with ((c :: s1) ++ s2). constructor; auto.
Qed.

Lemma deriv_complete c r s : lang r (c :: s) -> lang (deriv c r) s.
Proof.
  intros H. remember (c :: s) as cs eqn:E. revert s E.
  induction H; intros t E; simpl; try discriminate.
  - injection E as -> <-. rewrite H. constructor.
  - destruct s1 as [|x s1]; simpl in E.
    + apply lang_alt_r. apply nullable_lang in H. rewrite H. now apply IHlang2.
    + injection E as -> <-. apply lang_alt_l. constructor; auto.
  - apply lang_alt_l; auto.
  - apply lang_alt_r; auto.
  - destruct s1 as [|x s1]; simpl in E.
    + now apply IHlang2.
    + injection E as -> <-. constructor; auto.
Qed.

Lemma test_lang r s : test r s = true <-> lang r s.
Proof.
  revert r. induction s as [|c s IH]; intros r; simpl.
  - apply nullable_lang.
  - rewrite IH. split; [apply deriv_sound | apply deriv_complete].
Qed.

Lemma lang_star_class p s : forallb p s = true -> lang (Star (Class p)) s.
Proof.
  induction s as [|c s IH]; simpl; intros H; [constructor|].
  apply andb_true_iff in H as [Hc Hs].
  change (c :: s) with ([c] ++ s). constructor; [now constructor | auto].
Qed.

Lemma lang_plus_class p s :
  s <> [] -> forallb p s = true -> lang (Plus (Class p)) s.
Proof.
  destruct s as [|c s]; [congruence|]. simpl. intros _ H.
  apply andb_true_iff in H as [Hc Hs].
  change (c :: s) with ([c] ++ s). constructor; [now constructor|].
  now apply lang_star_class.
Qed.

(** ** preprocessMarkdown: the separator row *)

Section SeparatorRow.
Import Preprocess.

Lemma split_In c d s : In d s -> d <> c -> exists seg, In seg (split c s) /\ In d seg.
Proof.
  induction s as [|x s IH]; simpl; [tauto|].
  intros [->|H] Hne.
  - destruct (N.eqb_spec d c) as [|_]; [congruence|].
    pose proof (split_not_nil c s) as Hs.
    destruct (split c s) as [|seg segs]; [congruence|].
    exists (d :: seg). split; now left.
  - destruct (IH H Hne) as (seg & Hseg & Hd).
    destruct (x =? c)%N.
    + exists seg. split; [now right | assumption].
    + destruct (split c s) as [|seg0 segs]; [destruct Hseg|].
      destruct Hseg as [->|Hseg].
      * exists (x :: seg). split; [now left | now right].
      * exists seg. split; [now right | assumption].
Qed.

Lemma filter_length_pos {A} (p : A -> bool) (l : list A) x :
  In x l -> p x = true -> 1 <= len (List.filter p l).
Proof.
  intros Hx Hp. assert (H : In x (List.filter p l)) by (apply filter_In; auto).
  unfold len. destruct (List.filter p l); [destruct H | simpl; lia].
Qed.

Lemma separatorCols_pos line : includes DASH line = true -> 1 <= separatorCols line.
Proof.
  intros H. apply includes_true in H.
  destruct (split_In PIPE DASH line H) as (seg & Hseg & Hd); [discriminate|].
  unfold separatorCols. apply filter_length_pos with (x := seg); [assumption|].
  apply includes_true in Hd. rewrite Hd. apply orb_true_r.
Qed.

Lemma separator_row_tail n :
  lit " " ++ concat (replicate n (lit "--- | ")) ++ lit "--- |"
  = concat (replicate (S n) (lit " --- |")).
Proof.
  induction n as [|n IH]; [reflexivity|].
  change (replicate (S (S n)) (lit " --- |"))
    with (lit " --- |" :: replicate (S n) (lit " --- |")).
  change (replicate (S n) (lit "--- | "))
    with (lit "--- | " :: replicate n (lit "--- | ")).
  cbn [concat]. rewrite <- IH.
  generalize (concat (replicate n (lit "--- | "))). intros t. reflexivity.
Qed.

Lemma separator_row_cells c :
  (1 <= c)%nat -> separator_row c = PIPE :: concat (replicate c (lit " --- |")).
Proof.
  intros H. destruct c as [|n]; [lia|].
  unfold separator_row. replace (S n - 1)%nat with n by lia.
  rewrite <- separator_row_tail. reflexivity.
Qed.

Lemma split_cells c :
  split PIPE (concat (replicate c (lit " --- |"))) = replicate c (lit " --- ") ++ [[]].
Proof.
  induction c as [|c IH]; [reflexivity|].
  change (concat (replicate (S c) (lit " --- |")))
    with (lit " --- " ++ PIPE :: concat (replicate c (lit " --- |"))).
  rewrite split_app by reflexivity. rewrite IH. reflexivity.
Qed.

Lemma filter_replicate {A} (p : A -> bool) n x :
  p x = true -> List.filter p (replicate n x) = replicate n x.
Proof. intros H. induction n as [|n IH]; simpl; [reflexivity|]. now rewrite H, IH. Qed.

Lemma separatorCols_row c :
  (1 <= c)%nat -> separatorCols (separator_row c) = Z.of_nat c.
Proof.
  intros H. rewrite separator_row_cells by assumption.
  unfold separatorCols. change (split PIPE (PIPE :: ?t)) with ([] :: split PIPE t).
  rewrite split_cells. cbn [List.filter]. change (0 <? len (trim [])) with false.
  cbn [includes existsb orb]. rewrite List.filter_app, filter_replicate by reflexivity.
  cbn. unfold len. rewrite length_app, length_replicate. simpl. lia.
Qed.

Lemma cells_snoc n :
  concat (replicate (S n) (lit " --- |"))
  = (concat (replicate n (lit " --- |")) ++ lit " --- ") ++ [PIPE].
Proof.
  assert (E : forall (cell : str) k,
             concat (replicate (S k) cell) = concat (replicate k cell) ++ cell).
  { intros cell. induction k as [|k IH]; [simpl; now rewrite app_nil_r|].
    change (concat (replicate (S (S k)) cell))
      with (cell ++ concat (replicate (S k) cell)).
    rewrite IH at 1. rewrite app_assoc. reflexivity. }
  rewrite E. change (lit " --- |") with (lit " --- " ++ [PIPE]) at 2.
  now rewrite app_assoc.
Qed.

Lemma forallb_cells (p : N -> bool) n (cell : str) :
  forallb p cell = true -> forallb p (concat (replicate n cell)) = true.
Proof.
  intros H. induction n as [|n IH]; [reflexivity|].
  simpl. now rewrite forallb_app, H, IH.
Qed.

Lemma isSeparator_row c : (1 <= c)%nat -> isSeparator (separator_row c) = true.
Proof.
  intros H. rewrite separator_row_cells by assumption.
  destruct c as [|n]; [lia|]. rewrite cells_snoc.
  unfold isSeparator, separator_re. apply test_lang.
  change (PIPE :: ?m ++ [PIPE]) with ([] ++ ([PIPE] ++ (m ++ ([PIPE] ++ [])))).
  constructor; [constructor|].
  constructor; [now constructor|].
  constructor.
  - apply lang_plus_class.
    + destruct (concat (replicate n (lit " --- |"))); discriminate.
    + rewrite forallb_app. rewrite forallb_cells by reflexivity. reflexivity.
  - constructor; [now constructor | constructor].
Qed.

Lemma separator_row_dash c : includes DASH (separator_row c) = true.
Proof.
  unfold separator_row. rewrite !includes_app.
  change (includes DASH (lit "--- |")) with true. now rewrite !orb_true_r.
Qed.

Lemma separator_row_pipe c : includes PIPE (separator_row c) = true.
Proof. reflexivity. Qed.

Lemma separator_row_no_newline c : includes NL (separator_row c) = false.
Proof.
  unfold separator_row. rewrite !includes_app.
  change (includes NL (lit "| ")) with false.
  change (includes NL (lit "--- |")) with false.
  rewrite orb_false_r. cbn [orb].
  induction (c - 1)%nat as [|n IH]; [reflexivity|].
  change (replicate (S n) (lit "--- | "))
    with (lit "--- | " :: replicate n (lit "--- | ")).
  cbn [concat]. rewrite includes_app, IH. reflexivity.
Qed.

Lemma isSeparatorRow_row c : (1 <= c)%nat -> isSeparatorRow (separator_row c) = true.
Proof.
  intros H. unfold isSeparatorRow.
  now rewrite separator_row_pipe, separator_row_dash, isSeparator_row.
Qed.

Lemma normalized_row c : (1 <= c)%nat -> normalized (separator_row c) = separator_row c.
Proof.
  intros H. unfold normalized. rewrite isSeparatorRow_row by assumption.
  rewrite separatorCols_row by assumption. now rewrite Nat2Z.id.
Qed.

Lemma isSeparatorRow_dash line : isSeparatorRow line = true -> includes DASH line = true.
Proof.
  unfold isSeparatorRow. intros H.
  apply andb_true_iff in H as [H _]. now apply andb_true_iff in H as [_ H].
Qed.

Lemma normalized_fixed line : normalized (normalized line) = normalized line.
Proof.
  destruct (isSeparatorRow line) eqn:E.
  - assert (Hn : normalized line = separator_row (Z.to_nat (separatorCols line)))
      by (unfold normalized; now rewrite E).
    rewrite Hn. apply normalized_row.
    pose proof (separatorCols_pos line (isSeparatorRow_dash line E)). lia.
  - assert (Hn : normalized line = line) by (unfold normalized; now rewrite E).
    now rewrite !Hn.
Qed.

Lemma normalized_dash line : includes DASH (normalized line) = includes DASH line.
Proof.
  unfold normalized. destruct (isSeparatorRow line) eqn:E; [|reflexivity].
  rewrite separator_row_dash. symmetry. now apply isSeparatorRow_dash.
Qed.

Lemma normalized_pipe line : includes PIPE (normalized line) = includes PIPE line.
Proof.
  unfold normalized. destruct (isSeparatorRow line) eqn:E; [|reflexivity].
  rewrite separator_row_pipe. symmetry. unfold isSeparatorRow in E.
  apply andb_true_iff in E as [E _]. now apply andb_true_iff in E as [E _].
Qed.

Lemma normalized_no_dash line : includes DASH line = false -> normalized line = line.
Proof.
  intros H. unfold normalized, isSeparatorRow. rewrite H.
  now rewrite andb_false_r.
Qed.

Lemma isTableRow_dash line : includes DASH line = true -> isTableRow line = false.
Proof. intros H. unfold isTableRow. rewrite H. apply andb_false_r. Qed.

Lemma isTableRow_normalized line : isTableRow (normalized line) = isTableRow line.
Proof.
  destruct (includes DASH line) eqn:E.
  - rewrite !isTableRow_dash; [reflexivity | assumption |].
    now rewrite normalized_dash.
  - now rewrite normalized_no_dash.
Qed.

Lemma skipped_dash line : includes DASH line = true -> skipped line = false.
Proof.
  intros H. unfold skipped. rewrite H. simpl. now rewrite andb_false_r, andb_false_r.
Qed.

Lemma skipped_normalized line : skipped line = false -> skipped (normalized line) = false.
Proof.
  intros H. destruct (includes DASH line) eqn:E.
  - apply skipped_dash. now rewrite normalized_dash.
  - now rewrite normalized_no_dash.
Qed.

Lemma isTableRow_pipe line : isTableRow line = true -> includes PIPE line = true.
Proof.
  unfold isTableRow. intros H.
  apply andb_true_iff in H as [H _]. apply andb_true_iff in H as [H _].
  apply includes_true. apply trim_In. now apply startsWith_In.
Qed.

Lemma filter_map_length {A B} (p : B -> bool) (f : A -> B) (l : list A) :
  length (List.filter p (List.map f l)) = length (List.filter (fun x => p (f x)) l).
Proof.
  induction l as [|x l IH]; simpl; [reflexivity|].
  destruct (p (f x)); simpl; now rewrite IH.
Qed.

Lemma headerCols_cellContent line : headerCols line = len (cellContent line).
Proof.
  unfold headerCols, cellContent, len. now rewrite filter_map_length.
Qed.

Lemma headerCols_pos line :
  skipped line = false -> isTableRow line = true -> 1 <= headerCols line.
Proof.
  intros Hs Hr. pose proof (isTableRow_pipe line Hr) as Hp.
  unfold isTableRow in Hr. apply andb_true_iff in Hr as [_ Hd].
  unfold skipped in Hs. rewrite Hp, Hd, andb_true_r in Hs. simpl in Hs.
  unfold isEmptyRow in Hs. apply orb_false_iff in Hs as [Hs _].
  rewrite headerCols_cellContent. apply Z.eqb_neq in Hs. unfold len in *. lia.
Qed.

End SeparatorRow.

(** ** preprocessMarkdown: the loop *)

Section Loop.
Import Preprocess.

Lemma separatorRow_ok cols :
  1 <= cols -> separatorRow cols = Ok (separator_row (Z.to_nat cols)).
Proof.
  intros H. unfold separatorRow, repeat, separator_row.
  destruct (Z.ltb_spec (cols - 1) 0) as [Hlt|_]; [lia|]. simpl.
  now replace (Z.to_nat (cols - 1)) with (Z.to_nat cols - 1)%nat by lia.
Qed.

Lemma normalize_ok line : normalize line = Ok (normalized line).
Proof.
  unfold normalize, normalized, isSeparatorRow.
  destruct (includes PIPE line && includes DASH line) eqn:E; [|reflexivity].
  destruct (isSeparator line); [|reflexivity]. simpl.
  apply separatorRow_ok. apply separatorCols_pos.
  now apply andb_true_iff in E as [_ E].
Qed.

Lemma loop_body_ok lines i line0 st :
  lines !! i = Some line0 ->
  loop_body lines i st =
    Ok (if skipped line0 then st
        else if isTableRow (normalized line0) && negb (firstTableRowSeen st) then
               mkLoop (fixedLines st
                       ++ normalized line0
                          :: (if nextLineAllows (lines !! S i)
                              then [separator_row (Z.to_nat (headerCols (normalized line0)))]
                              else []))
                      true
             else mkLoop (fixedLines st ++ [normalized line0]) (firstTableRowSeen st)).
Proof.
  intros Hi. unfold loop_body. rewrite Hi.
  destruct (skipped line0) eqn:Hs; [reflexivity|].
  rewrite normalize_ok. simpl.
  destruct (isTableRow (normalized line0) && negb (firstTableRowSeen st)) eqn:Hf;
    [|reflexivity].
  replace (i + 1)%nat with (S i) by lia.
  destruct (nextLineAllows (lines !! S i)); [|reflexivity].
  apply andb_true_iff in Hf as [Hr _].
  rewrite separatorRow_ok.
  - simpl. now rewrite <- app_assoc.
  - apply headerCols_pos; [now apply skipped_normalized | assumption].
Qed.

Lemma for_loop_process suffix : forall prefix st,
  exists seen,
    for_loop (length suffix) (length prefix) (loop_body (prefix ++ suffix)) st
    = Ok (mkLoop (fixedLines st ++ process suffix (firstTableRowSeen st)) seen).
Proof.
  induction suffix as [|line0 rest IH]; intros prefix st.
  - exists (firstTableRowSeen st). simpl. rewrite app_nil_r. now destruct st.
  - cbn [length for_loop].
    rewrite (loop_body_ok _ _ line0)
      by (rewrite lookup_app_r, Nat.sub_diag by lia; reflexivity).
    assert (Hnext : (prefix ++ line0 :: rest) !! S (length prefix) = head rest).
    { rewrite lookup_app_r by lia.
      replace (S (length prefix) - length prefix)%nat with 1%nat by lia.
      now destruct rest. }
    rewrite Hnext. cbn [bind].
    specialize (IH (prefix ++ [line0])).
    rewrite <- app_assoc, length_app in IH. cbn [app length] in IH.
    replace (length prefix + 1)%nat with (S (length prefix)) in IH by lia.
    cbn [process].
    destruct (skipped line0); [apply IH|].
    destruct (isTableRow (normalized line0) && negb (firstTableRowSeen st)).
    + edestruct IH as [seen ->]. exists seen. cbn [fixedLines firstTableRowSeen].
      now rewrite <- !app_assoc.
    + edestruct IH as [seen ->]. exists seen. cbn [fixedLines firstTableRowSeen].
      now rewrite <- !app_assoc.
Qed.

Lemma preprocessMarkdown_process text :
  preprocessMarkdown text =
    Ok (if includes PIPE text then join NL (process (split NL text) false) else text).
Proof.
  unfold preprocessMarkdown. destruct (includes PIPE text); [|reflexivity].
  cbn [negb]. destruct (for_loop_process (split NL text) [] (mkLoop [] false)) as [seen E].
  cbn [app length fixedLines firstTableRowSeen] in E. now rewrite E.
Qed.

Lemma process_seen lines : process lines true = flat_map keep lines.
Proof.
  induction lines as [|line0 rest IH]; [reflexivity|].
  cbn [process flat_map]. unfold keep at 1.
  destruct (skipped line0); [assumption|].
  rewrite andb_false_r. simpl. now rewrite IH.
Qed.

Lemma process_no_row lines seen :
  Forall (fun l => kept_row l = false) lines -> process lines seen = flat_map keep lines.
Proof.
  induction 1 as [|line0 rest H0 _ IH]; [reflexivity|].
  cbn [process flat_map]. unfold keep at 1. unfold kept_row in H0.
  destruct (skipped line0); [assumption|].
  simpl in H0. rewrite isTableRow_normalized, H0. simpl. now rewrite IH.
Qed.

Lemma process_first_row pre header rest :
  Forall (fun l => kept_row l = false) pre -> kept_row header = true ->
  process (pre ++ header :: rest) false
  = flat_map keep pre
    ++ header :: (if nextLineAllows (head rest)
                  then [separator_row (Z.to_nat (headerCols header))] else [])
    ++ flat_map keep rest.
Proof.
  intros Hpre Hrow. induction Hpre as [|line0 pre H0 _ IH].
  - cbn [app process flat_map]. unfold kept_row in Hrow.
    apply andb_true_iff in Hrow as [Hs Hr]. apply negb_true_iff in Hs.
    rewrite Hs, isTableRow_normalized, Hr. cbn [andb negb].
    assert (Hd : includes DASH header = false).
    { unfold isTableRow in Hr. apply andb_true_iff in Hr as [_ Hr].
      now apply negb_true_iff in Hr. }
    rewrite normalized_no_dash by assumption. now rewrite process_seen.
  - cbn [app process flat_map]. unfold keep at 1. unfold kept_row in H0.
    destruct (skipped line0); [assumption|].
    simpl in H0. rewrite isTableRow_normalized, H0. simpl. now rewrite IH.
Qed.

Lemma nextLineAllows_separator x :
  includes PIPE x = true -> includes DASH x = true -> nextLineAllows (Some x) = false.
Proof. intros Hp Hd. destruct x; [reflexivity|]. simpl in *. now rewrite Hp, Hd. Qed.

Lemma nextLineAllows_false next :
  nextLineAllows next = false ->
  next = None \/ next = Some [] \/
  exists x, next = Some x /\ includes PIPE x = true /\ includes DASH x = true.
Proof.
  destruct next as [[|c x]|]; auto. simpl. intros H.
  apply negb_false_iff in H. apply andb_true_iff in H as [Hp Hd].
  right. right. exists (c :: x). auto.
Qed.

Lemma head_process rest seen :
  nextLineAllows (head rest) = false ->
  nextLineAllows (head (process rest seen)) = false.
Proof.
  intros H. destruct rest as [|n rest]; [reflexivity|].
  apply nextLineAllows_false in H as [H|[H|(x & H & Hp & Hd)]]; simpl in H.
  - discriminate.
  - injection H as ->. cbn. destruct seen; reflexivity.
  - injection H as ->. cbn [process].
    rewrite skipped_dash by assumption.
    assert (E : nextLineAllows (Some (normalized x)) = false).
    { apply nextLineAllows_separator;
        [now rewrite normalized_pipe | now rewrite normalized_dash]. }
    destruct (isTableRow (normalized x) && negb seen); exact E.
Qed.

Lemma process_idempotent lines :
  forall seen, process (process lines seen) seen = process lines seen.
Proof.
  induction lines as [|line0 rest IH]; intros seen; [reflexivity|].
  cbn [process]. destruct (skipped line0) eqn:Hs; [apply IH|].
  destruct (isTableRow (normalized line0) && negb seen) eqn:Hf.
  - apply andb_true_iff in Hf as [Hr Hseen]. apply negb_true_iff in Hseen. subst seen.
    cbn [process]. rewrite skipped_normalized, normalized_fixed, Hr by assumption.
    cbn [andb negb]. f_equal.
    assert (Hc : (1 <= Z.to_nat (headerCols (normalized line0)))%nat).
    { pose proof (headerCols_pos (normalized line0)
                    (skipped_normalized _ Hs) Hr). lia. }
    destruct (nextLineAllows (head rest)) eqn:Hn.
    + cbn [app head].
      rewrite nextLineAllows_separator
        by (apply separator_row_pipe || apply separator_row_dash).
      cbn [app process].
      rewrite skipped_dash by apply separator_row_dash.
      rewrite normalized_row by assumption.
      rewrite andb_false_r. f_equal. apply IH.
    + cbn [app]. rewrite head_process by assumption. cbn [app]. apply IH.
  - cbn [process]. rewrite skipped_normalized, normalized_fixed, Hf by assumption.
    f_equal. apply IH.
Qed.

Lemma normalized_no_newline line :
  includes NL line = false -> includes NL (normalized line) = false.
Proof.
  intros H. unfold normalized. destruct (isSeparatorRow line); [|assumption].
  apply separator_row_no_newline.
Qed.

Lemma process_no_newline lines : forall seen,
  Forall (fun l => includes NL l = false) lines ->
  Forall (fun l => includes NL l = false) (process lines seen).
Proof.
  induction lines as [|line0 rest IH]; intros seen H; [constructor|].
  inversion H as [|? ? H0 Hrest]; subst. cbn [process].
  destruct (skipped line0); [now apply IH|].
  destruct (isTableRow (normalized line0) && negb seen).
  - constructor; [now apply normalized_no_newline|].
    apply Forall_app. split; [|now apply IH].
    destruct (nextLineAllows (head rest)); repeat constructor.
    apply separator_row_no_newline.
  - constructor; [now apply normalized_no_newline | now apply IH].
Qed.

End Loop.

(** ** preprocessMarkdown: the claims *)

Section PreprocessClaims.
Import Preprocess.

(** C9.  Whenever a separator row is built, the column count is at least 1
    and [repeat] gets a count that is not negative: on the normalizing path
    (a line with a pipe and a dash that matches the pattern), on the
    synthesizing path (a line that was not skipped and passes the row
    test), and therefore on every input [preprocessMarkdown] returns
    without a RangeError. *)
Theorem separator_columns_positive :
  (forall line,
      includes PIPE line && includes DASH line = true -> isSeparator line = true ->
      1 <= separatorCols line
      /\ repeat (lit "--- | ") (separatorCols line - 1)
         = Ok (concat (replicate (Z.to_nat (separatorCols line - 1)) (lit "--- | "))))
  /\ (forall line0 line,
      skipped line0 = false -> normalize line0 = Ok line -> isTableRow line = true ->
      1 <= headerCols line
      /\ repeat (lit "--- | ") (headerCols line - 1)
         = Ok (concat (replicate (Z.to_nat (headerCols line - 1)) (lit "--- | "))))
  /\ (forall text, exists out, preprocessMarkdown text = Ok out).
Proof.
  assert (R : forall n, 1 <= n ->
            repeat (lit "--- | ") (n - 1)
            = Ok (concat (replicate (Z.to_nat (n - 1)) (lit "--- | ")))).
  { intros n Hn. unfold repeat. destruct (Z.ltb_spec (n - 1) 0); [lia | reflexivity]. }
  split; [|split].
  - intros line Hpd _. apply andb_true_iff in Hpd as [_ Hd].
    pose proof (separatorCols_pos line Hd). auto.
  - intros line0 line Hs Hn Hr. rewrite normalize_ok in Hn. injection Hn as <-.
    pose proof (headerCols_pos _ (skipped_normalized _ Hs) Hr). auto.
  - intros text. rewrite preprocessMarkdown_process. eauto.
Qed.

Lemma separator_columns_positive_witness :
  1 <= separatorCols (lit "|:-|-:|") /\ 1 <= headerCols (lit "| a | b |").
Proof.
  split.
  - apply (proj1 separator_columns_positive (lit "|:-|-:|")); reflexivity.
  - apply (proj1 (proj2 separator_columns_positive) (lit "| a | b |") (lit "| a | b |"));
      reflexivity.
Defined.

Lemma keep_without_pipe line : includes PIPE line = false -> keep line = [line].
Proof.
  intros H. unfold keep, skipped, normalized, isSeparatorRow. now rewrite H.
Qed.

Lemma kept_row_pipe line : kept_row line = true -> includes PIPE line = true.
Proof.
  unfold kept_row. intros H. apply andb_true_iff in H as [_ H].
  now apply isTableRow_pipe.
Qed.

Lemma lines_without_pipe text line :
  includes PIPE text = false -> In line (split NL text) -> includes PIPE line = false.
Proof.
  intros Ht Hl. apply includes_false. intros Hp.
  apply includes_false in Ht. apply Ht. eapply split_segment_In; eauto.
Qed.

Lemma flat_map_keep_without_pipe lines :
  (forall line, In line lines -> includes PIPE line = false) ->
  flat_map keep lines = lines.
Proof.
  induction lines as [|l ls IH]; intros H; [reflexivity|].
  cbn [flat_map]. rewrite keep_without_pipe by (apply H; now left).
  cbn [app]. f_equal. apply IH. intros line Hl. apply H. now right.
Qed.

(** C4, as the code has it.  On every document a separator row is
    synthesized at most once: every line is dropped or normalized on its own
    ([keep]), except that right after the first line that is not dropped and
    that, trimmed, starts and ends with a pipe and holds no dash, a separator
    row is inserted exactly when the original source has a following line,
    that line is not empty, and it does not hold both a pipe and a dash. *)
Theorem separator_inserted_once text :
  (Forall (fun l => kept_row l = false) (split NL text) ->
     preprocessMarkdown text = Ok (join NL (flat_map keep (split NL text))))
  /\ (forall i header,
        split NL text !! i = Some header -> kept_row header = true ->
        Forall (fun l => kept_row l = false) (take i (split NL text)) ->
        preprocessMarkdown text
        = Ok (join NL
                (flat_map keep (take i (split NL text))
                 ++ header
                    :: (if nextLineAllows (split NL text !! S i)
                        then [separator_row (Z.to_nat (headerCols header))]
                        else [])
                 ++ flat_map keep (drop (S i) (split NL text))))).
Proof.
  rewrite preprocessMarkdown_process. destruct (includes PIPE text) eqn:Hp.
  - split.
    + intros H. now rewrite process_no_row.
    + intros i header Hi Hrow Hpre.
      rewrite <- (take_drop_middle _ _ _ Hi) at 1.
      rewrite process_first_row by assumption.
      replace (head (drop (S i) (split NL text))) with (split NL text !! S i);
        [reflexivity|].
      rewrite <- (take_drop (S i) (split NL text)) at 1.
      generalize (drop (S i) (split NL text)). intros d.
      destruct (decide (S i <= length (split NL text))%nat) as [Hle|Hgt].
      * rewrite lookup_app_r; rewrite length_take, Nat.min_l by lia; [|lia].
        rewrite Nat.sub_diag. now destruct d.
      * apply lookup_lt_Some in Hi. lia.
  - split.
    + intros _. rewrite flat_map_keep_without_pipe
        by (intros line; apply lines_without_pipe; assumption).
      now rewrite join_split.
    + intros i header Hi Hrow _. apply kept_row_pipe in Hrow.
      rewrite (lines_without_pipe text header Hp) in Hrow; [discriminate|].
      apply list_elem_of_In. eapply list_elem_of_lookup_2. exact Hi.
Qed.

Lemma separator_inserted_once_witness :
  includes PIPE (join NL [lit "| a | b |"; lit "| 1 | 2 |"]) = true
  /\ preprocessMarkdown (join NL [lit "| a | b |"; lit "| 1 | 2 |"])
     = Ok (join NL [lit "| a | b |"; lit "| --- | --- |"; lit "| 1 | 2 |"]).
Proof.
  split; [reflexivity|].
  apply (proj2 (separator_inserted_once
                  (join NL [lit "| a | b |"; lit "| 1 | 2 |"]))
               0%nat (lit "| a | b |")).
  - reflexivity.
  - reflexivity.
  - constructor.
Defined.

(** C4, as the specification words it, fails.  (1) The line after the first
    table row holds a pipe and a dash without being a separator row: nothing
    is inserted.  (2) The line after the first table row is empty, hence no
    separator row: nothing is inserted.  (3) The first line that, trimmed,
    starts and ends with a pipe and holds no dash is an empty row: it is
    dropped, and the separator goes after a later line. *)
Lemma separator_insertion_counterexample :
  (isTableRow (lit "|a|") = true /\ isSeparatorRow (lit "|b-c|") = false
   /\ preprocessMarkdown (join NL [lit "|a|"; lit "|b-c|"])
      = Ok (join NL [lit "|a|"; lit "|b-c|"]))
  /\ (isTableRow (lit "|a|") = true /\ isSeparatorRow [] = false
      /\ preprocessMarkdown (join NL [lit "|a|"; []; lit "b"])
         = Ok (join NL [lit "|a|"; []; lit "b"]))
  /\ (isTableRow (lit "| |") = true /\ isSeparatorRow (lit "|a|") = false
      /\ preprocessMarkdown (join NL [lit "| |"; lit "|a|"; lit "b"])
         = Ok (join NL [lit "|a|"; lit "| --- |"; lit "b"])).
Proof. repeat split; vm_compute; reflexivity. Qed.

(** C5.  Running the preprocessor on its own output changes nothing: for
    every input [x] the call returns some [y], and the call on [y] returns
    [y] again. *)
Theorem preprocessMarkdown_idempotent (x : str) :
  exists y, preprocessMarkdown x = Ok y /\ preprocessMarkdown y = Ok y.
Proof.
  rewrite preprocessMarkdown_process. eexists. split; [reflexivity|].
  destruct (includes PIPE x) eqn:Hx.
  - rewrite preprocessMarkdown_process.
    destruct (includes PIPE (join NL (process (split NL x) false))) eqn:Hy; [|reflexivity].
    assert (Hne : process (split NL x) false <> []).
    { intros E. rewrite E in Hy. discriminate. }
    rewrite split_join; [now rewrite process_idempotent | assumption |].
    apply process_no_newline, split_segments.
  - rewrite preprocessMarkdown_process. now rewrite Hx.
Qed.

End PreprocessClaims.

(** ** MarkdownParser.parse *)

Section ParseClaims.
Import Preprocess Renderer.

Lemma node_all_impl (okT okA okT' okA' : str -> bool) :
  (forall t, okT t = true -> okT' t = true) ->
  (forall a, okA a = true -> okA' a = true) ->
  forall n, node_all okT okA n = true -> node_all okT' okA' n = true.
Proof.
  intros HT HA. fix IH 1. intros [d|tag attrs children]; simpl; [reflexivity|].
  intros H. apply andb_true_iff in H as [H Hc]. apply andb_true_iff in H as [Ht Ha].
  rewrite (HT _ Ht). simpl. apply andb_true_iff. split.
  - rewrite forallb_forall in *. intros a Hin. apply HA. now apply Ha.
  - clear Ht Ha. induction children as [|c cs IHc]; [reflexivity|].
    simpl in *. apply andb_true_iff in Hc as [Hc Hcs].
    rewrite (IH c Hc). simpl. now apply IHc.
Qed.

Lemma html_all_impl (okT okA okT' okA' : str -> bool) (h : html) :
  (forall t, okT t = true -> okT' t = true) ->
  (forall a, okA a = true -> okA' a = true) ->
  html_all okT okA h = true -> html_all okT' okA' h = true.
Proof.
  intros HT HA. unfold html_all. rewrite !forallb_forall.
  intros H n Hn. eapply node_all_impl; eauto.
Qed.

Lemma mem_forallb (p : str -> bool) x l :
  forallb p l = true -> mem x l = true -> p x = true.
Proof.
  intros Hall Hx. unfold mem in Hx. apply existsb_exists in Hx as (y & Hy & E).
  unfold str_eqb in E. apply bool_decide_eq_true in E. subst y.
  rewrite forallb_forall in Hall. now apply Hall.
Qed.

(** No allow-listed tag of [parse_config] is [script]. *)
Lemma allowed_tag_not_script tag :
  tag_allowed parse_config tag = true -> negb (is_script tag) = true.
Proof.
  apply (mem_forallb (fun t => negb (is_script t))). vm_compute. reflexivity.
Qed.

(** No attribute [parse_config] lets through is an [on*] handler. *)
Lemma permitted_attr_not_handler name :
  attr_permitted parse_config name = true -> negb (is_on_attr name) = true.
Proof.
  unfold attr_permitted, attr_listed. intros H.
  apply orb_true_iff in H as [H|H]; [apply orb_true_iff in H as [H|H]|].
  - apply orb_true_iff in H as [H|H];
      revert H; apply (mem_forallb (fun t => negb (is_on_attr t)));
      vm_compute; reflexivity.
  - discriminate.
  - unfold has_prefix, str_eqb in H. apply bool_decide_eq_true in H.
    destruct name as [|a [|b name]]; try discriminate.
    simpl in H. injection H as -> -> _. reflexivity.
Qed.

Lemma allowlisted_script_free (h : html) :
  allowlisted parse_config h = true -> script_free h = true.
Proof.
  apply html_all_impl;
    [apply allowed_tag_not_script | apply permitted_attr_not_handler].
Qed.

Lemma escapeHtml_script_free text : script_free (escapeHtml text) = true.
Proof. now destruct text. Qed.

Lemma html_all_app okT okA (a b : html) :
  html_all okT okA (a ++ b) = html_all okT okA a && html_all okT okA b.
Proof. unfold html_all. apply forallb_app. Qed.

Lemma sanitize_node_allowlisted cfg :
  forall n, allowlisted cfg (sanitize_node cfg n) = true.
Proof.
  fix IH 1. intros [d|tag attrs children]; [reflexivity|].
  assert (Hkids : allowlisted cfg (flat_map (sanitize_node cfg) children) = true).
  { induction children as [|c cs IHc]; [reflexivity|].
    cbn [flat_map]. unfold allowlisted in *. rewrite html_all_app, IH. exact IHc. }
  cbn [sanitize_node]. destruct (tag_allowed cfg tag) eqn:Ht; [|exact Hkids].
  unfold allowlisted, html_all in *. cbn [forallb node_all]. rewrite Ht, Hkids.
  rewrite !andb_true_r. cbn [andb]. apply forallb_forall. intros a Ha.
  apply filter_In in Ha as [_ Ha]. unfold attr_permitted. now rewrite Ha.
Qed.

Lemma sanitize_model_honours : honours_allowlist sanitize_model.
Proof.
  intros cfg dirty clean H. injection H as <-.
  induction dirty as [|n ns IH]; [reflexivity|].
  cbn [flat_map]. pose proof (sanitize_node_allowlisted cfg n) as Hn.
  unfold allowlisted in *. now rewrite html_all_app, IH, Hn.
Qed.

(** C1.  For a parser instance that sanitizes, whatever markdown-it
    renders, and for any sanitizer that honours its allow-list, [parse]
    returns HTML with no [script] element and no [on*] attribute: either
    the sanitizer's result, or the escaped input text, or the empty
    string. *)
Theorem parse_sanitized_script_free
    (md_render : MarkdownItOptions -> str -> result html)
    (DOMPurify_sanitize : SanitizeConfig -> html -> result html)
    (this : MarkdownParser) (markdown : arg) :
  honours_allowlist DOMPurify_sanitize ->
  sanitize this = true ->
  exists out, parse md_render DOMPurify_sanitize this markdown = Ok out
              /\ script_free out = true.
Proof.
  intros Hcontract Hsan. unfold parse, parse_try.
  destruct markdown as [| |s|coerced]; cbn [try_catch text_of];
    try (eexists; split; [reflexivity|]; first [reflexivity | apply escapeHtml_script_free]).
  destruct (str_eqb (trim s) []); [eexists; split; reflexivity|].
  unfold render_pipeline. rewrite preprocessMarkdown_process. cbn [bind].
  destruct (md_render _ _) as [html|e]; cbn [bind try_catch];
    [|eexists; split; [reflexivity | apply escapeHtml_script_free]].
  rewrite Hsan.
  destruct (DOMPurify_sanitize parse_config html) as [clean|e] eqn:E; cbn [try_catch];
    [|eexists; split; [reflexivity | apply escapeHtml_script_free]].
  exists clean. split; [reflexivity|].
  apply allowlisted_script_free. eapply Hcontract, E.
Qed.


End ParseClaims.

Section ParseWitnesses.
Import Preprocess Renderer.

Lemma parse_sanitized_script_free_witness :
  honours_allowlist sanitize_model
  /\ sanitize defaultMarkdownParser = true
  /\ exists out,
       parse (fun _ _ =>
                Ok [Element (lit "p") [(lit "onclick", lit "steal()")]
                      [Element (lit "script") [] [Text (lit "alert(1)")]]])
             sanitize_model defaultMarkdownParser (AString (lit "hi")) = Ok out
       /\ script_free out = true.
Proof.
  split; [apply sanitize_model_honours|]. split; [reflexivity|].
  apply parse_sanitized_script_free; [apply sanitize_model_honours | reflexivity].
Defined.


End ParseWitnesses.


(** ** Objects *)

Section Objects.
Import Store.

Lemma str_eqb_eq a b : str_eqb a b = true <-> a = b.
Proof. unfold str_eqb. apply bool_decide_eq_true. Qed.

Lemma str_eqb_neq a b : str_eqb a b = false <-> a <> b.
Proof. unfold str_eqb. apply bool_decide_eq_false. Qed.

Lemma str_eqb_refl a : str_eqb a a = true.
Proof. now apply str_eqb_eq. Qed.

Lemma get_set_eq k v o : get k (set k v o) = Some v.
Proof.
  induction o as [|[k' v'] o IH]; simpl.
  - now rewrite str_eqb_refl.
  - destruct (str_eqb k k') eqn:E; simpl; [now rewrite str_eqb_refl|].
    now rewrite E.
Qed.

Lemma get_set_ne k k' v o : k <> k' -> get k (set k' v o) = get k o.
Proof.
  intros Hne. induction o as [|[k0 v0] o IH]; simpl.
  - apply str_eqb_neq in Hne. now rewrite Hne.
  - destruct (str_eqb k' k0) eqn:E; simpl.
    + apply str_eqb_eq in E. subst k0. apply str_eqb_neq in Hne. now rewrite Hne.
    + now rewrite IH.
Qed.

Lemma get_filter_heavy k o :
  get k (List.filter (fun kv => negb (is_heavy (fst kv))) o)
  = if is_heavy k then None else get k o.
Proof.
  induction o as [|[k' v'] o IH]; simpl; [now destruct (is_heavy k)|].
  destruct (is_heavy k') eqn:Hk'; simpl.
  - rewrite IH. destruct (str_eqb k k') eqn:E; [|reflexivity].
    apply str_eqb_eq in E. subst k'. now rewrite Hk'.
  - rewrite IH. destruct (str_eqb k k') eqn:E; [|reflexivity].
    apply str_eqb_eq in E. subst k'. now rewrite Hk'.
Qed.

Lemma get_absent (k : str) (o : object) : ~ In k (List.map fst o) -> get k o = None.
Proof.
  induction o as [|[k' v'] o IH]; simpl; [reflexivity|].
  intros H. destruct (str_eqb k k') eqn:E.
  - apply str_eqb_eq in E. subst. tauto.
  - apply IH. tauto.
Qed.

Lemma keys_set (k : str) (v : json) (o : object) :
  List.map fst (set k v o)
  = match get k o with
    | Some _ => List.map fst o
    | None => List.map fst o ++ [k]
    end.
Proof.
  induction o as [|[k' v'] o IH]; simpl; [reflexivity|].
  destruct (str_eqb k k') eqn:E; simpl.
  - apply str_eqb_eq in E. now subst.
  - rewrite IH. now destruct (get k o).
Qed.

Lemma get_present (k : str) (o : object) : In k (List.map fst o) -> get k o <> None.
Proof.
  induction o as [|[k' v'] o IH]; simpl; [tauto|].
  intros [->|H]; [now rewrite str_eqb_refl|].
  destruct (str_eqb k k'); [discriminate | auto].
Qed.

Lemma NoDup_set (k : str) (v : json) (o : object) :
  NoDup (List.map fst o) -> NoDup (List.map fst (set k v o)).
Proof.
  intros H. rewrite keys_set. destruct (get k o) eqn:E; [assumption|].
  apply NoDup_app. split; [assumption|]. split; [|repeat constructor; intros []%elem_of_nil].
  intros x Hx Hk. apply list_elem_of_singleton in Hk. subst x.
  apply list_elem_of_In in Hx. now apply get_present in Hx.
Qed.

Lemma get_assign (k : str) (source : object) : forall target,
  NoDup (List.map fst source) ->
  get k (assign target source)
  = match get k source with Some v => Some v | None => get k target end.
Proof.
  unfold assign. induction source as [|[k0 v0] source IH]; intros target Hnd;
    [reflexivity|].
  cbn [fold_left fst snd List.map get] in *. apply NoDup_cons in Hnd as [Hk0 Hnd].
  rewrite IH by assumption. destruct (str_eqb k k0) eqn:E.
  - apply str_eqb_eq in E. subst k0.
    rewrite get_absent by (now rewrite <- list_elem_of_In).
    apply get_set_eq.
  - apply str_eqb_neq in E. now rewrite get_set_ne.
Qed.

Lemma set_fresh (k : str) (v : json) (o : object) :
  ~ In k (List.map fst o) -> set k v o = o ++ [(k, v)].
Proof.
  induction o as [|[k' v'] o IH]; simpl; [reflexivity|].
  intros H. destruct (str_eqb k k') eqn:E.
  - apply str_eqb_eq in E. subst. tauto.
  - rewrite IH by tauto. reflexivity.
Qed.

Lemma assign_app (source : object) : forall target,
  NoDup (List.map fst (target ++ source)) -> assign target source = target ++ source.
Proof.
  unfold assign. induction source as [|[k v] source IH]; intros target H.
  - now rewrite app_nil_r.
  - cbn [fold_left fst snd]. rewrite set_fresh.
    + rewrite IH; rewrite <- app_assoc; [reflexivity | exact H].
    + rewrite map_app in H. apply NoDup_app in H as (_ & H & _).
      intros Hin. apply (H k); [now apply list_elem_of_In | cbn; left].
Qed.

Lemma assign_nil (source : object) :
  NoDup (List.map fst source) -> assign [] source = source.
Proof. intros H. now apply (assign_app source []). Qed.

Lemma NoDup_assign (source : object) : forall target,
  NoDup (List.map fst target) -> NoDup (List.map fst (assign target source)).
Proof.
  unfold assign. induction source as [|[k v] source IH]; intros target H; [assumption|].
  cbn [fold_left]. apply IH. now apply NoDup_set.
Qed.

End Objects.

(** ** JSON: [JSON.parse] undoes [JSON.stringify] *)

Section JsonRoundTrip.
Import Store.

Lemma hex_value_digit x : (x < 16)%N -> hex_value (hex_digit x) = Some x.
Proof.
  intros H. unfold hex_digit, hex_value.
  destruct (N.ltb_spec x 10).
  - replace ((48 <=? 48 + x) && (48 + x <=? 57))%N with true
      by (symmetry; apply andb_true_iff; split; apply N.leb_le; lia).
    f_equal. lia.
  - replace ((48 <=? 87 + x) && (87 + x <=? 57))%N with false
      by (symmetry; apply andb_false_iff; right; apply N.leb_gt; lia).
    replace ((97 <=? 87 + x) && (87 + x <=? 102))%N with true
      by (symmetry; apply andb_true_iff; split; apply N.leb_le; lia).
    f_equal. lia.
Qed.

Lemma hex4_escape c :
  (c < 65536)%N ->
  hex4 (hex_digit ((c / 4096) mod 16)) (hex_digit ((c / 256) mod 16))
       (hex_digit ((c / 16) mod 16)) (hex_digit (c mod 16)) = Some c.
Proof.
  intros H. unfold hex4.
  rewrite !hex_value_digit by (apply N.mod_upper_bound; discriminate).
  f_equal.
  replace (c / 256)%N with (c / 16 / 16)%N by (now rewrite N.Div0.div_div).
  replace (c / 4096)%N with (c / 16 / 16 / 16)%N by (now rewrite !N.Div0.div_div).
  pose proof (N.Div0.div_mod c 16) as E0.
  pose proof (N.Div0.div_mod (c / 16) 16) as E1.
  pose proof (N.Div0.div_mod (c / 16 / 16) 16) as E2.
  pose proof (N.Div0.div_mod (c / 16 / 16 / 16) 16) as E3.
  pose proof (N.mod_upper_bound c 16 ltac:(discriminate)).
  pose proof (N.mod_upper_bound (c / 16) 16 ltac:(discriminate)).
  pose proof (N.mod_upper_bound (c / 16 / 16) 16 ltac:(discriminate)).
  pose proof (N.mod_upper_bound (c / 16 / 16 / 16) 16 ltac:(discriminate)).
  generalize dependent (c mod 16)%N.
  generalize dependent ((c / 16) mod 16)%N.
  generalize dependent ((c / 16 / 16) mod 16)%N.
  generalize dependent ((c / 16 / 16 / 16) mod 16)%N.
  generalize dependent (c / 16 / 16 / 16 / 16)%N.
  generalize dependent (c / 16 / 16 / 16)%N.
  generalize dependent (c / 16 / 16)%N.
  generalize dependent (c / 16)%N.
  intros. lia.
Qed.

Lemma parse_chars_escape c t :
  (c < 65536)%N -> parse_chars (unicode_escape c ++ t) = push c (parse_chars t).
Proof.
  intros H. unfold unicode_escape. cbn [app parse_chars].
  change (92 =? 34)%N with false. change (92 =? 92)%N with true.
  change (117 =? 117)%N with true. cbn iota. now rewrite hex4_escape.
Qed.

Lemma surrogate_bound c :
  is_high_surrogate c = true \/ is_low_surrogate c = true -> (c < 65536)%N.
Proof.
  unfold is_high_surrogate, is_low_surrogate.
  intros [H|H]; apply andb_true_iff in H as [_ H]; apply N.leb_le in H; lia.
Qed.

Lemma parse_chars_raw c t :
  (c =? 34)%N = false -> (c =? 92)%N = false -> (c <? 32)%N = false ->
  parse_chars (c :: t) = push c (parse_chars t).
Proof. intros H1 H2 H3. cbn [parse_chars]. now rewrite H1, H2, H3. Qed.

Lemma parse_chars_quote_chars n : forall s rest,
  (length s <= n)%nat ->
  parse_chars (quote_chars s ++ 34%N :: rest) = Some (s, rest).
Proof.
  induction n as [|n IH]; intros s rest Hlen.
  - destruct s; [reflexivity | simpl in Hlen; lia].
  - destruct s as [|c s']; [reflexivity|]. cbn [length] in Hlen.
    assert (IH1 : parse_chars (quote_chars s' ++ 34%N :: rest) = Some (s', rest))
      by (apply IH; lia).
    cbn [quote_chars].
    repeat match goal with
    | |- context [if (c =? ?k)%N then _ else _] =>
        destruct (N.eqb_spec c k) as [->|?];
        [ rewrite <- app_assoc; cbn; rewrite IH1; reflexivity |]
    end.
    destruct (N.ltb_spec c 32) as [Hc|Hc].
    { rewrite <- app_assoc, parse_chars_escape, IH1 by lia. reflexivity. }
    assert (R : forall t, parse_chars (c :: t) = push c (parse_chars t)).
    { intros t. apply parse_chars_raw;
        [apply N.eqb_neq; assumption | apply N.eqb_neq; assumption | apply N.ltb_ge; assumption]. }
    destruct (is_high_surrogate c) eqn:Hh.
    + pose proof (surrogate_bound c (or_introl Hh)) as Hb.
      destruct s' as [|d s''].
      * rewrite parse_chars_escape by assumption. reflexivity.
      * destruct (is_low_surrogate d) eqn:Hl.
        -- cbn [app]. rewrite R.
           assert (Rd : forall t, parse_chars (d :: t) = push d (parse_chars t)).
           { intros t. unfold is_low_surrogate in Hl.
             apply andb_true_iff in Hl as [Hl _]. apply N.leb_le in Hl.
             apply parse_chars_raw;
               [apply N.eqb_neq | apply N.eqb_neq | apply N.ltb_ge]; lia. }
           rewrite Rd. cbn [length] in Hlen. rewrite IH by lia. reflexivity.
        -- rewrite <- app_assoc, parse_chars_escape, IH1 by assumption. reflexivity.
    + destruct (is_low_surrogate c) eqn:Hl.
      * pose proof (surrogate_bound c (or_intror Hl)) as Hb.
        rewrite <- app_assoc, parse_chars_escape, IH1 by assumption. reflexivity.
      * cbn [app]. rewrite R, IH1. reflexivity.
Qed.

Lemma parse_chars_quote s rest :
  parse_chars (quote_chars s ++ 34%N :: rest) = Some (s, rest).
Proof. now apply (parse_chars_quote_chars (length s)). Qed.

(** Numbers *)

Lemma delimited_no_digit rest :
  delimited rest = true ->
  match rest with c :: _ => digit_of c = None | [] => True end.
Proof.
  destruct rest as [|c rest]; [trivial|]. cbn [delimited]. intros H.
  apply orb_true_iff in H as [H|H]; [apply orb_true_iff in H as [H|H]|];
    apply N.eqb_eq in H; subst c; reflexivity.
Qed.

Lemma delimited_ends_number rest : delimited rest = true -> continues_number rest = false.
Proof.
  destruct rest as [|c rest]; [reflexivity|]. cbn [delimited]. intros H.
  apply orb_true_iff in H as [H|H]; [apply orb_true_iff in H as [H|H]|];
    apply N.eqb_eq in H; subst c; reflexivity.
Qed.

Lemma delimited_skip_ws rest : delimited rest = true -> skip_ws rest = rest.
Proof.
  destruct rest as [|c rest]; [reflexivity|]. cbn [delimited]. intros H.
  apply orb_true_iff in H as [H|H]; [apply orb_true_iff in H as [H|H]|];
    apply N.eqb_eq in H; subst c; reflexivity.
Qed.

Lemma read_digits_uint d rest :
  match rest with c :: _ => digit_of c = None | [] => True end ->
  read_digits (uint_digits d ++ rest) = (d, rest).
Proof.
  intros Hrest. induction d; cbn [uint_digits app read_digits];
    try (match goal with
         | |- context [digit_of ?c] =>
             let r := eval vm_compute in (digit_of c) in
             change (digit_of c) with r
         end; cbn iota; now rewrite IHd).
  destruct rest as [|c rest]; [reflexivity|]. cbn [read_digits]. now rewrite Hrest.
Qed.

Lemma to_uint_integer_part p : integer_part (Pos.to_uint p) = true.
Proof.
  pose proof (Unsigned.to_uint_nonnil p) as Hnil.
  pose proof (Unsigned.to_uint_nonzero p) as Hzero.
  assert (Hnorm : Decimal.unorm (Pos.to_uint p) = Pos.to_uint p).
  { rewrite <- Unsigned.to_of, Unsigned.of_to. reflexivity. }
  destruct (Pos.to_uint p) as [|u| | | | | | | | |]; try reflexivity; [congruence|].
  destruct u; try reflexivity;
    rewrite DecimalFacts.unorm_D0 in Hnorm;
    match type of Hnorm with
    | Decimal.unorm ?d = _ =>
        pose proof (DecimalFacts.nb_digits_unorm d ltac:(discriminate)) as Hd
    end;
    rewrite Hnorm in Hd; cbn [Decimal.nb_digits] in Hd; lia.
Qed.

Lemma uint_digits_head d :
  d <> Decimal.Nil ->
  exists c t, uint_digits d = c :: t /\ (48 <= c <= 57)%N.
Proof. destruct d; [congruence|..]; intros _; eexists _, _; (split; [reflexivity | lia]). Qed.

Lemma number_text_head n :
  exists c t, number_text n = c :: t /\ (c = 45 \/ 48 <= c <= 57)%N.
Proof.
  unfold number_text. destruct n as [|p|p]; cbn [Z.to_int].
  - exists 48%N, []. split; [reflexivity | lia].
  - destruct (uint_digits_head _ (Unsigned.to_uint_nonnil p)) as (c & t & -> & H).
    exists c, t. split; [reflexivity | lia].
  - exists 45%N, (uint_digits (Pos.to_uint p)). split; [reflexivity | lia].
Qed.

Lemma parse_digits_uint p negative rest :
  Z.pos p <= MAX_SAFE_INTEGER -> delimited rest = true ->
  parse_digits negative (uint_digits (Pos.to_uint p) ++ rest)
  = Some (JNumber (if negative then Z.neg p else Z.pos p), rest).
Proof.
  intros Hp Hrest. unfold parse_digits.
  rewrite read_digits_uint by (now apply delimited_no_digit).
  rewrite to_uint_integer_part, delimited_ends_number by assumption. cbn [andb negb].
  assert (E : Z.of_uint (Pos.to_uint p) = Z.pos p).
  { unfold Z.of_uint. now rewrite Unsigned.of_to. }
  rewrite E. destruct (Z.leb_spec (Z.pos p) MAX_SAFE_INTEGER); [|lia].
  now destruct negative.
Qed.

Lemma parse_number_text n rest :
  Z.abs n <= MAX_SAFE_INTEGER -> delimited rest = true ->
  parse_number (number_text n ++ rest) = Some (JNumber n, rest).
Proof.
  intros Hn Hrest. unfold number_text. destruct n as [|p|p]; cbn [Z.to_int].
  - cbn [uint_digits app parse_number]. change (48 =? 45)%N with false. cbn iota.
    unfold parse_digits. cbn [read_digits]. change (digit_of 48) with (Some Decimal.D0).
    cbn iota. pose proof (delimited_no_digit rest Hrest) as Hd.
    assert (E : read_digits rest = (Decimal.Nil, rest)).
    { destruct rest as [|c rest]; [reflexivity|]. cbn [read_digits]. now rewrite Hd. }
    rewrite E. cbn [integer_part]. now rewrite delimited_ends_number.
  - destruct (uint_digits_head _ (Unsigned.to_uint_nonnil p)) as (c & t & E & Hc).
    assert (Hs : parse_number (uint_digits (Pos.to_uint p) ++ rest)
                 = parse_digits false (uint_digits (Pos.to_uint p) ++ rest)).
    { rewrite E. cbn [app parse_number].
      destruct (N.eqb_spec c 45) as [->|_]; [lia | reflexivity]. }
    rewrite Hs. apply parse_digits_uint; [lia | assumption].
  - cbn [uint_digits app parse_number]. change (DASH =? 45)%N with true. cbn iota.
    apply parse_digits_uint; [lia | assumption].
Qed.

(** Values *)

Lemma json_induction (P : json -> Prop) :
  P JNull -> (forall b, P (JBool b)) -> (forall n, P (JNumber n)) ->
  (forall s, P (JString s)) ->
  (forall items, Forall P items -> P (JArray items)) ->
  (forall fields, Forall (fun kv => P (snd kv)) fields -> P (JObject fields)) ->
  forall v, P v.
Proof.
  intros Hnull Hbool Hnum Hstr Harr Hobj.
  refine (fix IH (v : json) : P v :=
            match v with
            | JNull => Hnull
            | JBool b => Hbool b
            | JNumber n => Hnum n
            | JString s => Hstr s
            | JArray items =>
                Harr items
                  ((fix go (l : list json) : Forall P l :=
                      match l with
                      | [] => @List.Forall_nil _ P
                      | x :: l' => @List.Forall_cons _ P x l' (IH x) (go l')
                      end) items)
            | JObject fields =>
                Hobj fields
                  ((fix go (l : object) : Forall (fun kv => P (snd kv)) l :=
                      match l with
                      | [] => @List.Forall_nil _ _
                      | kv :: l' => @List.Forall_cons _ _ kv l' (IH (snd kv)) (go l')
                      end) fields)
            end).
Qed.

Lemma parse_value_dispatch fuel c r :
  is_json_ws c = false ->
  parse_value (S fuel) (c :: r)
  = if (c =? 34)%N then
      match parse_chars r with
      | Some (chars, rest) => Some (JString chars, rest)
      | None => None
      end
    else if (c =? 91)%N then
      match skip_ws r with
      | [] => None
      | c' :: r' =>
          if (c' =? 93)%N then Some (JArray [], r')
          else match parse_elements fuel r with
               | Some (items, rest) => Some (JArray items, rest)
               | None => None
               end
      end
    else if (c =? 123)%N then
      match skip_ws r with
      | [] => None
      | c' :: r' =>
          if (c' =? 125)%N then Some (JObject [], r')
          else match parse_members fuel r with
               | Some (members, rest) => Some (JObject (assign [] members), rest)
               | None => None
               end
      end
    else if (c =? 110)%N then keyword (lit "null") JNull (c :: r)
    else if (c =? 116)%N then keyword (lit "true") (JBool true) (c :: r)
    else if (c =? 102)%N then keyword (lit "false") (JBool false) (c :: r)
    else parse_number (c :: r).
Proof. intros H. cbn [parse_value skip_ws]. now rewrite H. Qed.

Lemma digit_or_minus_plain c :
  (c = 45 \/ 48 <= c <= 57)%N ->
  is_json_ws c = false /\ (c =? 34)%N = false /\ (c =? 91)%N = false
  /\ (c =? 123)%N = false /\ (c =? 110)%N = false /\ (c =? 116)%N = false
  /\ (c =? 102)%N = false /\ (c =? 93)%N = false /\ (c =? 125)%N = false.
Proof.
  intros H. unfold is_json_ws.
  repeat match goal with
  | |- context [(c =? ?k)%N] =>
      destruct (N.eqb_spec c k) as [->|?]; [exfalso; lia|]
  end.
  repeat split.
Qed.

(** The first character of a serialisation. *)
Lemma stringify_text_head v :
  exists c t, stringify_text v = c :: t
              /\ is_json_ws c = false /\ (c =? 93)%N = false /\ (c =? 125)%N = false.
Proof.
  destruct v as [|[]|n|s|items|fields];
    try (eexists _, _; repeat split; reflexivity).
  cbn [stringify_text]. destruct (number_text_head n) as (c & t & -> & Hc).
  destruct (digit_or_minus_plain c Hc) as (? & _ & _ & _ & _ & _ & _ & ? & ?).
  exists c, t. auto.
Qed.

Lemma stringify_text_length v : (1 <= length (stringify_text v))%nat.
Proof. destruct (stringify_text_head v) as (c & t & -> & _). simpl. lia. Qed.

Lemma commas_cons (p q : str) (ps : list str) :
  commas (p :: q :: ps) = p ++ 44%N :: commas (q :: ps).
Proof. reflexivity. Qed.

Lemma parse_elements_commas (items : list json) :
  Forall reads_back items -> items <> [] ->
  forall fuel rest,
    (length (commas (List.map stringify_text items)) < fuel)%nat ->
    parse_elements fuel (commas (List.map stringify_text items) ++ 93%N :: rest)
    = Some (items, rest).
Proof.
  induction 1 as [|x xs Hx _ IH]; [congruence|]. intros _ fuel rest Hlen.
  destruct fuel as [|fuel]; [lia|]. cbn [parse_elements].
  destruct xs as [|y ys].
  - cbn [List.map commas] in *. rewrite Hx by (reflexivity || lia). reflexivity.
  - cbn [List.map] in *. rewrite commas_cons in *. rewrite length_app in Hlen.
    cbn [length] in Hlen. pose proof (stringify_text_length x).
    rewrite <- app_assoc. cbn [app]. rewrite Hx by (reflexivity || lia).
    cbn [skip_ws]. change (is_json_ws 44) with false. cbn iota.
    change (44 =? 44)%N with true. cbn iota.
    rewrite IH by (discriminate || lia). reflexivity.
Qed.

Lemma parse_members_commas (fields : object) :
  Forall (fun kv => reads_back (snd kv)) fields -> fields <> [] ->
  forall fuel rest,
    (length (commas (List.map (fun kv => quote (fst kv) ++ 58%N :: stringify_text (snd kv))
                              fields)) < fuel)%nat ->
    parse_members fuel
      (commas (List.map (fun kv => quote (fst kv) ++ 58%N :: stringify_text (snd kv)) fields)
       ++ 125%N :: rest)
    = Some (fields, rest).
Proof.
  induction 1 as [|[k v] fs Hv _ IH]; [congruence|]. intros _ fuel rest Hlen.
  destruct fuel as [|fuel]; [lia|]. cbn [snd fst] in Hv.
  assert (Hmember : forall tail,
            delimited tail = true ->
            (length (stringify_text v) <= fuel)%nat ->
            parse_members (S fuel)
              ((quote k ++ 58%N :: stringify_text v) ++ tail)
            = match skip_ws tail with
              | [] => None
              | c :: r4 =>
                  if (c =? 44)%N then
                    match parse_members fuel r4 with
                    | Some (ms, rest') => Some ((k, v) :: ms, rest')
                    | None => None
                    end
                  else if (c =? 125)%N then Some ([(k, v)], r4)
                  else None
              end).
  { intros tail Htail Hfuel. unfold quote. cbn [parse_members app skip_ws].
    change (is_json_ws 34) with false. cbn iota. change (34 =? 34)%N with true. cbn iota.
    rewrite <- !app_assoc. cbn [app]. rewrite parse_chars_quote.
    cbn [skip_ws]. change (is_json_ws 58) with false. cbn iota.
    change (58 =? 58)%N with true. cbn iota.
    now rewrite Hv by assumption. }
  destruct fs as [|f fs'].
  - cbn [List.map commas fst snd] in *. rewrite length_app in Hlen. cbn [length] in Hlen.
    rewrite Hmember by (reflexivity || lia). reflexivity.
  - cbn [List.map] in *. rewrite commas_cons in *. cbn [fst snd] in *.
    rewrite ?length_app in Hlen. cbn [length] in Hlen. rewrite ?length_app in Hlen.
    cbn [length] in Hlen.
    rewrite <- app_assoc. cbn [app].
    rewrite Hmember by (reflexivity || lia).
    cbn [skip_ws]. change (is_json_ws 44) with false. cbn iota.
    change (44 =? 44)%N with true. cbn iota.
    rewrite IH by (discriminate || lia). reflexivity.
Qed.

Lemma well_formed_reads_back v : well_formed v = true -> reads_back v.
Proof.
  induction v as [|b|n|s|items IH|fields IH] using json_induction;
    intros Hwf fuel rest Hlen Hrest.
  - destruct fuel; [cbn in Hlen; lia | reflexivity].
  - destruct fuel; [destruct b; cbn in Hlen; lia | destruct b; reflexivity].
  - pose proof (stringify_text_length (JNumber n)).
    destruct fuel as [|fuel]; [lia|]. cbn [stringify_text] in *.
    destruct (number_text_head n) as (c & t & E & Hc).
    destruct (digit_or_minus_plain c Hc) as (W & H1 & H2 & H3 & H4 & H5 & H6 & _).
    cbn [well_formed] in Hwf. apply Z.leb_le in Hwf.
    pose proof (parse_number_text n rest Hwf Hrest) as Hnum.
    rewrite E in *. cbn [app] in *.
    rewrite parse_value_dispatch by assumption.
    now rewrite H1, H2, H3, H4, H5, H6.
  - destruct fuel as [|fuel]; [cbn in Hlen; lia|].
    cbn [stringify_text]. unfold quote. rewrite <- !app_assoc. cbn [app].
    rewrite parse_value_dispatch by reflexivity. change (34 =? 34)%N with true.
    cbn iota. now rewrite parse_chars_quote.
  - destruct fuel as [|fuel]; [cbn in Hlen; lia|].
    cbn [stringify_text well_formed] in *. rewrite <- !app_assoc. cbn [app].
    rewrite parse_value_dispatch by reflexivity.
    change (91 =? 34)%N with false. change (91 =? 91)%N with true. cbn iota.
    destruct items as [|x xs]; [reflexivity|].
    assert (Hall : Forall reads_back (x :: xs)).
    { rewrite forallb_forall in Hwf. rewrite Forall_forall in *.
      intros y Hy. apply IH; [assumption|]. apply Hwf. now apply list_elem_of_In. }
    rewrite length_app in Hlen. cbn [length] in Hlen. rewrite length_app in Hlen.
    cbn [length] in Hlen.
    rewrite (parse_elements_commas (x :: xs) Hall) by (discriminate || lia).
    destruct (stringify_text_head x) as (c & t & E & W & H93 & _).
    assert (Hs : exists t', commas (List.map stringify_text (x :: xs)) ++ 93%N :: rest
                            = c :: t').
    { destruct xs; cbn [List.map]; [cbn [commas] | rewrite commas_cons];
        rewrite E; eexists; reflexivity. }
    destruct Hs as (t' & ->). cbn [skip_ws]. now rewrite W, H93.
  - destruct fuel as [|fuel]; [cbn in Hlen; lia|].
    cbn [stringify_text well_formed] in *. rewrite <- !app_assoc. cbn [app].
    rewrite parse_value_dispatch by reflexivity.
    change (123 =? 34)%N with false. change (123 =? 91)%N with false.
    change (123 =? 123)%N with true. cbn iota.
    destruct fields as [|[k v] fs]; [reflexivity|].
    apply andb_true_iff in Hwf as [Hnd Hwf]. apply bool_decide_eq_true in Hnd.
    assert (Hall : Forall (fun kv => reads_back (snd kv)) ((k, v) :: fs)).
    { rewrite forallb_forall in Hwf. rewrite Forall_forall in *.
      intros y Hy. apply IH; [assumption|]. apply Hwf. now apply list_elem_of_In. }
    rewrite length_app in Hlen. cbn [length] in Hlen. rewrite length_app in Hlen.
    cbn [length] in Hlen.
    rewrite (parse_members_commas ((k, v) :: fs) Hall) by (discriminate || lia).
    rewrite assign_nil by assumption.
    assert (Hs : exists t',
               commas (List.map (fun kv => quote (fst kv) ++ 58%N :: stringify_text (snd kv))
                                ((k, v) :: fs)) ++ 125%N :: rest
               = 34%N :: t').
    { destruct fs; cbn [List.map]; [cbn [commas] | rewrite commas_cons];
        unfold quote; eexists; reflexivity. }
    destruct Hs as (t' & ->). reflexivity.
Qed.

(** [JSON.parse(JSON.stringify(v))] is [v] on JSON data. *)
Theorem JSON_parse_stringify v :
  well_formed v = true -> JSON_parse (JSON_stringify v) = Ok v.
Proof.
  intros Hwf. unfold JSON_parse, JSON_stringify.
  pose proof (well_formed_reads_back v Hwf (2 * length (stringify_text v) + 2)%nat []) as H.
  rewrite app_nil_r in H. rewrite H by (reflexivity || lia). reflexivity.
Qed.

(** What [JSON.parse] returns is JSON data. *)

Lemma forallb_set (P : json -> bool) k v (o : object) :
  P v = true -> forallb (fun kv => P (snd kv)) o = true ->
  forallb (fun kv => P (snd kv)) (set k v o) = true.
Proof.
  intros Hv. induction o as [|[k' v'] o IH]; cbn [set forallb snd]; intros H.
  - now rewrite Hv.
  - apply andb_true_iff in H as [H1 H2]. destruct (str_eqb k k'); cbn [forallb snd].
    + now rewrite Hv, H2.
    + now rewrite H1, IH.
Qed.

Lemma forallb_assign (P : json -> bool) (source : object) : forall target,
  forallb (fun kv => P (snd kv)) target = true ->
  forallb (fun kv => P (snd kv)) source = true ->
  forallb (fun kv => P (snd kv)) (assign target source) = true.
Proof.
  unfold assign. induction source as [|[k v] source IH]; intros target Ht Hs; [assumption|].
  cbn [fold_left fst snd forallb] in *. apply andb_true_iff in Hs as [Hv Hs].
  apply IH; [now apply forallb_set | assumption].
Qed.

Lemma parse_number_well_formed s v r :
  parse_number s = Some (v, r) -> well_formed v = true.
Proof.
  assert (Hd : forall negative t,
             parse_digits negative t = Some (v, r) -> well_formed v = true).
  { intros negative t. unfold parse_digits. destruct (read_digits t) as [d rest].
    destruct (integer_part d && negb (continues_number rest)); [|discriminate].
    destruct (Z.leb_spec (Z.of_uint d) MAX_SAFE_INTEGER) as [Hle|]; [|discriminate].
    intros H. injection H as <- _. cbn [well_formed]. apply Z.leb_le.
    assert (0 <= Z.of_uint d) by (unfold Z.of_uint; apply N2Z.is_nonneg).
    destruct negative; lia. }
  unfold parse_number. destruct s as [|c t]; [discriminate|].
  destruct (c =? 45)%N; apply Hd.
Qed.

Lemma parse_well_formed fuel :
  (forall s v r, parse_value fuel s = Some (v, r) -> well_formed v = true)
  /\ (forall s vs r, parse_elements fuel s = Some (vs, r) ->
                     forallb well_formed vs = true)
  /\ (forall s ms r, parse_members fuel s = Some (ms, r) ->
                     forallb (fun kv => well_formed (snd kv)) ms = true).
Proof.
  induction fuel as [|fuel (IHv & IHe & IHm)];
    [repeat split; intros; discriminate|].
  repeat split.
  - intros s v r. cbn [parse_value].
    destruct (skip_ws s) as [|c r0]; [discriminate|].
    destruct (c =? 34)%N.
    { destruct (parse_chars r0) as [[chars rest]|]; [|discriminate].
      intros H. now injection H as <- _. }
    destruct (c =? 91)%N.
    { destruct (skip_ws r0) as [|c' r']; [discriminate|].
      destruct (c' =? 93)%N; [intros H; now injection H as <- _|].
      destruct (parse_elements fuel r0) as [[items rest]|] eqn:E; [|discriminate].
      intros H. injection H as <- _. cbn [well_formed]. eapply IHe, E. }
    destruct (c =? 123)%N.
    { destruct (skip_ws r0) as [|c' r']; [discriminate|].
      destruct (c' =? 125)%N; [intros H; now injection H as <- _|].
      destruct (parse_members fuel r0) as [[members rest]|] eqn:E; [|discriminate].
      intros H. injection H as <- _. cbn [well_formed]. apply andb_true_iff. split.
      - apply bool_decide_eq_true. apply NoDup_assign. constructor.
      - apply forallb_assign; [reflexivity | eapply IHm, E]. }
    unfold keyword.
    destruct (c =? 110)%N.
    { destruct (strip_prefix _ _); [|discriminate]. intros H. now injection H as <- _. }
    destruct (c =? 116)%N.
    { destruct (strip_prefix _ _); [|discriminate]. intros H. now injection H as <- _. }
    destruct (c =? 102)%N.
    { destruct (strip_prefix _ _); [|discriminate]. intros H. now injection H as <- _. }
    apply parse_number_well_formed.
  - intros s vs r. cbn [parse_elements].
    destruct (parse_value fuel s) as [[v r0]|] eqn:E; [|discriminate].
    pose proof (IHv _ _ _ E) as Hv.
    destruct (skip_ws r0) as [|c r']; [discriminate|].
    destruct (c =? 44)%N.
    { destruct (parse_elements fuel r') as [[vs' rest]|] eqn:E'; [|discriminate].
      intros H. injection H as <- _. cbn [forallb]. rewrite Hv. eapply IHe, E'. }
    destruct (c =? 93)%N; [|discriminate].
    intros H. injection H as <- _. cbn [forallb]. now rewrite Hv.
  - intros s ms r. cbn [parse_members].
    destruct (skip_ws s) as [|q r0]; [discriminate|].
    destruct (q =? 34)%N; [|discriminate].
    destruct (parse_chars r0) as [[k r1]|]; [|discriminate].
    destruct (skip_ws r1) as [|c1 r2]; [discriminate|].
    destruct (c1 =? 58)%N; [|discriminate].
    destruct (parse_value fuel r2) as [[v r3]|] eqn:E; [|discriminate].
    pose proof (IHv _ _ _ E) as Hv.
    destruct (skip_ws r3) as [|c r4]; [discriminate|].
    destruct (c =? 44)%N.
    { destruct (parse_members fuel r4) as [[ms' rest]|] eqn:E'; [|discriminate].
      intros H. injection H as <- _. cbn [forallb snd]. rewrite Hv. eapply IHm, E'. }
    destruct (c =? 125)%N; [|discriminate].
    intros H. injection H as <- _. cbn [forallb snd]. now rewrite Hv.
Qed.

Theorem JSON_parse_well_formed s v : JSON_parse s = Ok v -> well_formed v = true.
Proof.
  unfold JSON_parse.
  destruct (parse_value _ s) as [[v' rest]|] eqn:E; [|discriminate].
  destruct (skip_ws rest); [|discriminate]. intros H. injection H as <-.
  eapply (proj1 (parse_well_formed _)), E.
Qed.

Lemma JSON_parse_empty : JSON_parse [] = Throw SyntaxError.
Proof. reflexivity. Qed.

End JsonRoundTrip.

(** ** Local storage *)

Section StoreLemmas.
Import Store.

Lemma strip_stripped msg r : strip msg = Ok r -> r = stripped msg.
Proof. destruct msg; simpl; intros H; now inversion H. Qed.

Lemma map_result_strip a r : map_result strip a = Ok r -> r = List.map stripped a.
Proof.
  revert r. induction a as [|x a IH]; simpl; intros r H; [now inversion H|].
  destruct (strip x) as [y|] eqn:Hx; [|discriminate]. simpl in H.
  destruct (map_result strip a) as [ys|]; [|discriminate]. simpl in H.
  inversion H; subst. now rewrite (strip_stripped _ _ Hx), (IH ys eq_refl).
Qed.

(** What [prepare] returns when it returns. *)
Lemma prepare_fields chatId saveObj obj :
  prepare chatId saveObj = Ok obj ->
  (chatId <> [] -> get (lit "chatId") obj = Some (JString chatId))
  /\ (forall entries,
        get (lit "chatHistory") saveObj = Some (JArray entries) ->
        get (lit "chatHistory") obj
        = Some (JArray (List.map stripped (slice_last MAX_HISTORY entries))))
  /\ ((forall entries, get (lit "chatHistory") saveObj <> Some (JArray entries)) ->
      get (lit "chatHistory") obj = get (lit "chatHistory") saveObj)
  /\ (forall k, k <> lit "chatId" -> k <> lit "chatHistory" ->
                get k obj = get k saveObj).
Proof.
  unfold prepare. intros H.
  set (obj0 := if truthy_str chatId then set (lit "chatId") (JString chatId) saveObj
               else saveObj) in *.
  assert (Hh : get (lit "chatHistory") obj0 = get (lit "chatHistory") saveObj).
  { subst obj0. destruct (truthy_str chatId); [|reflexivity].
    now apply get_set_ne. }
  assert (Hc : chatId <> [] -> get (lit "chatId") obj0 = Some (JString chatId)).
  { intros Hne. subst obj0. destruct chatId; [congruence|]. apply get_set_eq. }
  assert (Hk : forall k, k <> lit "chatId" -> get k obj0 = get k saveObj).
  { intros k Hne. subst obj0. destruct (truthy_str chatId); [|reflexivity].
    now apply get_set_ne. }
  rewrite Hh in H.
  destruct (get (lit "chatHistory") saveObj) as [[| | | |entries|]|] eqn:E;
    try (injection H as <-; repeat split;
         [assumption | intros ? ?; discriminate | now rewrite Hh
          | intros k H1 H2; now apply Hk]).
  destruct (map_result strip (slice_last MAX_HISTORY entries)) as [trimmed|] eqn:Ht;
    [|discriminate].
  simpl in H. injection H as <-. apply map_result_strip in Ht. subst trimmed.
  repeat split.
  - intros Hne. rewrite get_set_ne by discriminate. now apply Hc.
  - intros entries' E'. injection E' as <-. apply get_set_eq.
  - intros Hno. now destruct (Hno entries).
  - intros k H1 H2. rewrite get_set_ne by assumption. now apply Hk.
Qed.

(** *** JSON data stays JSON data *)

Lemma well_formed_object (o : object) :
  well_formed (JObject o) = true
  <-> NoDup (List.map fst o) /\ forallb (fun kv => well_formed (snd kv)) o = true.
Proof.
  cbn [well_formed]. rewrite andb_true_iff, bool_decide_eq_true. reflexivity.
Qed.

Lemma get_well_formed k (o : object) v :
  forallb (fun kv => well_formed (snd kv)) o = true -> get k o = Some v ->
  well_formed v = true.
Proof.
  induction o as [|[k' v'] o IH]; cbn [get forallb snd]; [discriminate|].
  intros H. apply andb_true_iff in H as [H1 H2].
  destruct (str_eqb k k'); [intros E; now injection E as <- | now apply IH].
Qed.

Lemma well_formed_set k v (o : object) :
  well_formed (JObject o) = true -> well_formed v = true ->
  well_formed (JObject (set k v o)) = true.
Proof.
  rewrite !well_formed_object. intros [Hnd Hall] Hv. split.
  - now apply NoDup_set.
  - now apply forallb_set.
Qed.

Lemma well_formed_assign (target source : object) :
  well_formed (JObject target) = true -> well_formed (JObject source) = true ->
  well_formed (JObject (assign target source)) = true.
Proof.
  rewrite !well_formed_object. intros [Hnd Hall] [_ Hs]. split.
  - now apply NoDup_assign.
  - now apply forallb_assign.
Qed.

Lemma uint_digits_inj d : forall d', uint_digits d = uint_digits d' -> d = d'.
Proof.
  induction d; intros d' H; destruct d'; try discriminate; try reflexivity;
    cbn [uint_digits] in H; injection H as H; f_equal; now apply IHd.
Qed.

Lemma index_key_inj i j : index_key i = index_key j -> i = j.
Proof.
  unfold index_key. intros H.
  now apply DecimalNat.Unsigned.to_uint_inj, uint_digits_inj.
Qed.

Lemma imap_keys_distinct {A} (items : list A) : forall g : nat -> str,
  (forall i j, g i = g j -> i = j) ->
  NoDup (List.map fst (imap (fun i x => (g i, x)) items)).
Proof.
  induction items as [|x items IH]; intros g Hg; [constructor|].
  cbn [imap List.map fst]. constructor.
  - intros Hin. apply list_elem_of_In, in_map_iff in Hin as ([k y] & Hk & Hin).
    cbn [fst] in Hk. subst k.
    apply list_elem_of_In, elem_of_lookup_imap in Hin as (i & z & E & _).
    injection E as E _. apply Hg in E. discriminate.
  - apply (IH (fun i => g (S i))). intros i j E. apply Hg in E. lia.
Qed.

Lemma indexed_well_formed (items : list json) :
  forallb well_formed items = true -> well_formed (JObject (indexed items)) = true.
Proof.
  intros H. apply well_formed_object. split.
  - apply imap_keys_distinct, index_key_inj.
  - apply forallb_forall. intros [k v] Hin.
    apply list_elem_of_In, elem_of_lookup_imap in Hin as (i & z & E & Hz).
    injection E as _ ->. rewrite forallb_forall in H. apply H.
    apply list_elem_of_In. eapply list_elem_of_lookup_2, Hz.
Qed.

Lemma own_properties_well_formed v :
  well_formed v = true -> well_formed (JObject (own_properties v)) = true.
Proof.
  destruct v as [| | |s|items|fields]; cbn [own_properties]; try reflexivity.
  - intros _. apply indexed_well_formed. apply forallb_forall.
    intros x Hx. apply in_map_iff in Hx as (c & <- & _). reflexivity.
  - intros H. now apply indexed_well_formed.
  - trivial.
Qed.

Lemma filter_keys_distinct (p : str * json -> bool) (o : object) :
  NoDup (List.map fst o) -> NoDup (List.map fst (List.filter p o)).
Proof.
  induction o as [|kv o IH]; cbn [List.map List.filter]; [trivial|].
  intros H. apply NoDup_cons in H as [Hk Hnd].
  destruct (p kv); [|now apply IH]. cbn [List.map]. constructor; [|now apply IH].
  intros Hin. apply Hk. apply list_elem_of_In in Hin. apply list_elem_of_In.
  apply in_map_iff in Hin as (kv' & E & Hin). apply filter_In in Hin as [Hin _].
  apply in_map_iff. eauto.
Qed.

Lemma stripped_well_formed msg : well_formed msg = true -> well_formed (stripped msg) = true.
Proof.
  intros H. apply own_properties_well_formed in H. unfold stripped.
  apply well_formed_object in H as [Hnd Hall]. apply well_formed_object. split.
  - now apply filter_keys_distinct.
  - rewrite forallb_forall in *. intros kv Hin. apply filter_In in Hin as [Hin _]. auto.
Qed.

Lemma prepare_well_formed chatId saveObj obj :
  well_formed (JObject saveObj) = true -> prepare chatId saveObj = Ok obj ->
  well_formed (JObject obj) = true.
Proof.
  unfold prepare. intros Hwf H.
  set (obj0 := if truthy_str chatId then set (lit "chatId") (JString chatId) saveObj
               else saveObj) in *.
  assert (H0 : well_formed (JObject obj0) = true).
  { subst obj0. destruct (truthy_str chatId); [now apply well_formed_set | assumption]. }
  destruct (get (lit "chatHistory") obj0) as [[| | | |entries|]|] eqn:E;
    try (now injection H as <-).
  destruct (map_result strip (slice_last MAX_HISTORY entries)) as [trimmed|] eqn:Ht;
    [|discriminate].
  cbn [bind] in H. injection H as <-. apply map_result_strip in Ht. subst trimmed.
  apply well_formed_set; [assumption|]. cbn [well_formed].
  apply well_formed_object in H0 as [_ H0].
  pose proof (get_well_formed _ _ _ H0 E) as He. cbn [well_formed] in He.
  rewrite forallb_forall in *. intros x Hx. apply in_map_iff in Hx as (y & <- & Hy).
  apply stripped_well_formed, He. unfold slice_last in Hy.
  apply list_elem_of_In in Hy. apply list_elem_of_In. eapply subseteq_drop, Hy.
Qed.

(** *** Reading back what was written *)

Lemma stringify_truthy v : truthy_str (JSON_stringify v) = true.
Proof.
  unfold JSON_stringify. destruct (stringify_text_head v) as (c & t & -> & _). reflexivity.
Qed.

Lemma load_after_store (chatflowid : str) (v : json) (ls : storage) :
  well_formed v = true ->
  getLocalStorageChatflow chatflowid
    (setItem (storage_key chatflowid) (JSON_stringify v) ls) = v.
Proof.
  intros Hwf. unfold getLocalStorageChatflow, getItem, setItem.
  rewrite lookup_insert_eq, stringify_truthy. now rewrite JSON_parse_stringify.
Qed.

Lemma parsed_truthy (s : str) v : JSON_parse s = Ok v -> truthy_str s = true.
Proof. destruct s; [discriminate | reflexivity]. Qed.

End StoreLemmas.

Section StoreClaims.
Import Store.

(** C6.  When the record, once trimmed, serialises to more than 2000
    bytes, the save returns normally and leaves the whole storage as it
    was: nothing is written under any key. *)
Theorem oversized_save_writes_nothing
    (chatflowid chatId : str) (saveObj obj : object) (ls : storage) :
  prepare chatId saveObj = Ok obj ->
  MAX_BYTES < Blob_size (JSON_stringify (JObject obj)) ->
  setLocalStorageChatflow chatflowid chatId saveObj ls = (Ok tt, ls).
Proof.
  intros Hp Hsize. unfold setLocalStorageChatflow. rewrite Hp.
  destruct (Z.ltb_spec MAX_BYTES (Blob_size (JSON_stringify (JObject obj))));
    [reflexivity | lia].
Qed.

Lemma oversized_save_writes_nothing_witness :
  let saveObj := [(lit "note", JString (replicate 2000 120%N))] in
  let ls : storage :=
    {[ storage_key (lit "flow") := JSON_stringify (JObject [(lit "lead", JBool true)]) ]} in
  prepare (lit "c1") saveObj = Ok (saveObj ++ [(lit "chatId", JString (lit "c1"))])
  /\ MAX_BYTES < Blob_size (JSON_stringify (JObject (saveObj ++ [(lit "chatId", JString (lit "c1"))])))
  /\ setLocalStorageChatflow (lit "flow") (lit "c1") saveObj ls = (Ok tt, ls).
Proof.
  intros saveObj ls.
  assert (Hp : prepare (lit "c1") saveObj
               = Ok (saveObj ++ [(lit "chatId", JString (lit "c1"))])) by reflexivity.
  assert (Hs : MAX_BYTES
               < Blob_size (JSON_stringify
                              (JObject (saveObj ++ [(lit "chatId", JString (lit "c1"))]))))
    by (vm_compute; reflexivity).
  split; [exact Hp|]. split; [exact Hs|].
  exact (oversized_save_writes_nothing (lit "flow") (lit "c1") saveObj _ ls Hp Hs).
Defined.




Lemma write_merged_history (k : str) (obj : object) (ls : storage) (h : list json) :
  well_formed (JObject obj) = true ->
  get (lit "chatHistory") obj = Some (JArray h) ->
  (forall s, getItem k ls = Some s -> s = [] \/ exists v, JSON_parse s = Ok v) ->
  exists fields,
    write_merged k obj ls = Ok (setItem k (JSON_stringify (JObject fields)) ls)
    /\ well_formed (JObject fields) = true
    /\ get (lit "chatHistory") fields = Some (JArray h).
Proof.
  intros Hwf Hh Hprior. unfold write_merged.
  destruct (getItem k ls) as [s|] eqn:E; [|eauto].
  destruct (Hprior s eq_refl) as [->|[v Hv]]; [cbn [truthy_str]; eauto|].
  rewrite (parsed_truthy _ _ Hv), Hv. cbn [bind]. rewrite Hh. cbn [truthy].
  eexists. split; [reflexivity|]. split; [|apply get_set_eq].
  apply well_formed_set.
  - apply well_formed_assign; [|assumption].
    apply own_properties_well_formed, (JSON_parse_well_formed s), Hv.
  - apply well_formed_object in Hwf as [_ Hwf]. eapply get_well_formed; eauto.
Qed.

Lemma stored_history_stringify (fields : object) :
  well_formed (JObject fields) = true ->
  stored_history (JSON_stringify (JObject fields))
  = match get (lit "chatHistory") fields with
    | Some (JArray h) => Some h
    | _ => None
    end.
Proof. intros H. unfold stored_history. now rewrite JSON_parse_stringify. Qed.



End StoreClaims.

Section StoreWitnesses.
Import Store.




End StoreWitnesses.

(** ** Local storage: what every reachable storage satisfies *)

Section StoreInvariant.
Import Store.

Lemma uint_digits_not_chatHistory d : uint_digits d <> lit "chatHistory".
Proof. destruct d; discriminate. Qed.

Lemma get_indexed_chatHistory (items : list json) :
  get (lit "chatHistory") (indexed items) = None.
Proof.
  apply get_absent. intros H. apply in_map_iff in H as ([k v] & Hk & Hin).
  simpl in Hk. subst k. unfold indexed in Hin.
  apply list_elem_of_In, elem_of_lookup_imap in Hin as (i & x & E & _).
  injection E as E _. symmetry in E. now apply uint_digits_not_chatHistory in E.
Qed.

Lemma prepare_history_bounded chatId saveObj obj h :
  prepare chatId saveObj = Ok obj ->
  get (lit "chatHistory") obj = Some (JArray h) -> (length h <= MAX_HISTORY)%nat.
Proof.
  intros Hp Hh. destruct (prepare_fields _ _ _ Hp) as (_ & Harr & Hother & _).
  destruct (get (lit "chatHistory") saveObj) as [[| | | |entries|]|] eqn:E;
    try (rewrite Hother in Hh by (intros ?; discriminate); discriminate).
  rewrite (Harr entries eq_refl) in Hh. injection Hh as <-.
  rewrite length_map. unfold slice_last. rewrite length_drop. lia.
Qed.

(** The history half of C2 holds: from a storage whose histories are
    bounded, in particular from the empty one, no sequence of operations on
    JSON data stores a [chatHistory] of more than 30 entries. *)
Lemma stored_history_bounded (ops : list op) : forall ls : storage,
  forallb json_data ops = true -> history_bounded ls -> history_bounded (run ops ls).
Proof.
  unfold run. induction ops as [|o ops IH]; intros ls Hwf Hinv; [assumption|].
  cbn [forallb] in Hwf. apply andb_true_iff in Hwf as [Ho Hwf].
  cbn [fold_left]. apply IH; [assumption|]. clear IH Hwf ops.
  assert (Hins : forall k0 fields,
             well_formed (JObject fields) = true ->
             (forall h, get (lit "chatHistory") fields = Some (JArray h) ->
                        (length h <= MAX_HISTORY)%nat) ->
             history_bounded (setItem k0 (JSON_stringify (JObject fields)) ls)).
  { intros k0 fields Hf Hb k t h Hk Ht. unfold setItem in Hk.
    destruct (decide (k0 = k)) as [E|Hne].
    - subst k. rewrite lookup_insert_eq in Hk. injection Hk as <-.
      change (stored_history (JSON_stringify (JObject fields)) = Some h) in Ht.
      rewrite stored_history_stringify in Ht by assumption.
      destruct (get (lit "chatHistory") fields) as [[| | | |h'|]|] eqn:E; try discriminate.
      injection Ht as <-. now apply Hb.
    - rewrite lookup_insert_ne in Hk by assumption. eapply Hinv; eauto. }
  destruct o as [chatflowid chatId saveObj|chatflowid|chatflowid]; cbn [step json_data] in *.
  - unfold setLocalStorageChatflow.
    destruct (prepare chatId saveObj) as [obj|e] eqn:Hp; [|assumption].
    destruct (MAX_BYTES <? Blob_size (JSON_stringify (JObject obj))); [assumption|].
    pose proof (prepare_well_formed _ _ _ Ho Hp) as Hobjwf.
    pose proof (fun h => prepare_history_bounded _ _ _ h Hp) as Hobj.
    unfold write_merged.
    destruct (getItem (storage_key chatflowid) ls) as [s|] eqn:Hget; cbn [snd];
      [|now apply Hins].
    destruct (truthy_str s); [|now apply Hins].
    destruct (JSON_parse s) as [v|e] eqn:Hv; cbn [bind snd].
    + pose proof (JSON_parse_well_formed _ _ Hv) as Hvwf.
      assert (Hmwf : well_formed (JObject (assign (own_properties v) obj)) = true)
        by (apply well_formed_assign; [now apply own_properties_well_formed | assumption]).
      assert (Hnd : NoDup (List.map fst obj)) by (now apply well_formed_object in Hobjwf).
      destruct (get (lit "chatHistory") obj) as [x|] eqn:Hx.
      * assert (Hxwf : well_formed x = true).
        { apply well_formed_object in Hobjwf as [_ Hall]. eapply get_well_formed; eauto. }
        assert (Hm : get (lit "chatHistory")
                         (if truthy x
                          then set (lit "chatHistory") x (assign (own_properties v) obj)
                          else assign (own_properties v) obj) = Some x).
        { destruct (truthy x); [apply get_set_eq|].
          now rewrite get_assign, Hx by assumption. }
        apply Hins.
        -- destruct (truthy x); [now apply well_formed_set | assumption].
        -- intros h Hh. rewrite Hm in Hh. injection Hh as ->. now apply Hobj.
      * apply Hins; [assumption|]. intros h Hh.
        rewrite get_assign, Hx in Hh by assumption.
        destruct v as [| | |chars|items|fields]; try discriminate.
        -- cbn [own_properties] in Hh. now rewrite get_indexed_chatHistory in Hh.
        -- cbn [own_properties] in Hh. now rewrite get_indexed_chatHistory in Hh.
        -- cbn [own_properties] in Hh. unfold getItem in Hget.
           eapply Hinv; [exact Hget|]. unfold stored_history. now rewrite Hv, Hh.
    + apply Hins; [reflexivity|]. intros h Hh. discriminate Hh.
  - assumption.
  - unfold removeLocalStorageChatHistory. cbv zeta.
    destruct (getItem (storage_key chatflowid) ls) as [t|]; [|assumption].
    destruct (truthy_str t); [|assumption].
    assert (Hdel : history_bounded (removeItem (storage_key chatflowid) ls)).
    { intros k t' h Hk Ht. unfold removeItem in Hk.
      apply lookup_delete_Some in Hk as [_ Hk]. eapply Hinv; eauto. }
    destruct (JSON_parse t) as [v|e] eqn:Hv; cbn [bind]; [|assumption].
    destruct (member v (lit "lead")) as [[lead|]|] eqn:Hm; [|assumption|assumption].
    destruct (truthy lead); [|assumption].
    assert (Hlead : well_formed lead = true).
    { destruct v; try discriminate. cbn [member] in Hm. injection Hm as Hm.
      apply JSON_parse_well_formed, well_formed_object in Hv as [_ Hall].
      eapply get_well_formed; eauto. }
    intros k t' h Hk Ht. unfold setItem in Hk.
    destruct (decide (storage_key chatflowid = k)) as [E|Hne].
    + subst k. rewrite lookup_insert_eq in Hk. injection Hk as <-.
      change (stored_history (JSON_stringify (JObject [(lit "lead", lead)])) = Some h) in Ht.
      rewrite stored_history_stringify in Ht; [discriminate Ht|].
      apply well_formed_object. split; [repeat constructor; intros H; inversion H|].
      cbn [forallb snd]. now rewrite Hlead.
    + rewrite lookup_insert_ne in Hk by assumption. eapply Hdel; eauto.
Qed.

(** C2, the size bound, evaluated.  Two saves under one key, each with a
    record that passes the size check on its own (1922 bytes once [chatId]
    is merged in), leave a merged record of 3829 bytes in storage. *)
Theorem merged_record_exceeds_cap :
  let first := [(lit "a", JString (replicate 1900 120%N))] in
  let second := [(lit "b", JString (replicate 1900 121%N))] in
  let ops := [Save (lit "flow") (lit "c1") first; Save (lit "flow") (lit "c1") second] in
  let merged := first ++ [(lit "chatId", JString (lit "c1"))] ++ second in
  forallb json_data ops = true
  /\ forallb within_cap ops = true
  /\ Blob_size (JSON_stringify (JObject (first ++ [(lit "chatId", JString (lit "c1"))]))) = 1922
  /\ Blob_size (JSON_stringify (JObject (second ++ [(lit "chatId", JString (lit "c1"))]))) = 1922
  /\ getItem (storage_key (lit "flow")) (run ops ∅) = Some (JSON_stringify (JObject merged))
  /\ Blob_size (JSON_stringify (JObject merged)) = 3829
  /\ MAX_BYTES < 3829.
Proof. repeat split; vm_compute; reflexivity. Qed.

End StoreInvariant.

(** * Further properties

    Properties of the same functions beyond the ten claims, and of the
    functions the claims leave out. *)

(** ** preprocessMarkdown: what the output looks like *)

Section PreprocessOutput.
Import Preprocess.

Lemma process_length lines : forall seen,
  (length (process lines seen) <= length lines + (if seen then 0 else 1))%nat.
Proof.
  induction lines as [|line0 rest IH]; intros seen; cbn [process length]; [lia|].
  destruct (skipped line0).
  - specialize (IH seen). lia.
  - destruct (isTableRow (normalized line0) && negb seen) eqn:Hf.
    + apply andb_true_iff in Hf as [_ Hseen]. apply negb_true_iff in Hseen. subst seen.
      cbn [length]. rewrite length_app. specialize (IH true). cbv iota in IH.
      destruct (nextLineAllows (head rest)); cbn [length]; lia.
    + cbn [length]. specialize (IH seen). lia.
Qed.

Lemma process_length_no_row lines seen :
  Forall (fun l => kept_row l = false) lines ->
  (length (process lines seen) <= length lines)%nat.
Proof.
  intros H. rewrite process_no_row by assumption. clear H.
  induction lines as [|line0 rest IH]; cbn [flat_map length]; [lia|].
  rewrite length_app. unfold keep at 1. destruct (skipped line0); cbn [length]; lia.
Qed.

Lemma process_pipe_free lines : forall seen,
  List.filter (fun l => negb (includes PIPE l)) (process lines seen)
  = List.filter (fun l => negb (includes PIPE l)) lines.
Proof.
  induction lines as [|line0 rest IH]; intros seen; [reflexivity|].
  cbn [process].
  destruct (skipped line0) eqn:Hs.
  - unfold skipped in Hs. apply andb_true_iff in Hs as [Hp _].
    cbn [List.filter]. rewrite Hp. apply IH.
  - assert (Hn : List.filter (fun l => negb (includes PIPE l)) [normalized line0]
                 = List.filter (fun l => negb (includes PIPE l)) [line0]).
    { cbn [List.filter]. rewrite normalized_pipe.
      destruct (includes PIPE line0) eqn:Hp; [reflexivity|].
      cbn [negb]. f_equal. unfold normalized, isSeparatorRow. now rewrite Hp. }
    change (line0 :: rest) with ([line0] ++ rest).
    destruct (isTableRow (normalized line0) && negb seen).
    + change (normalized line0 :: ?t) with ([normalized line0] ++ t).
      rewrite !List.filter_app, Hn, IH. f_equal.
      destruct (nextLineAllows (head rest)); [|reflexivity].
      cbn [List.filter app]. now rewrite separator_row_pipe.
    + change (normalized line0 :: ?t) with ([normalized line0] ++ t).
      now rewrite !List.filter_app, Hn, IH.
Qed.

Lemma settled_fixed l : skipped l = false -> normalized l = l -> settled l.
Proof.
  intros Hs Hn. split; [assumption|]. intros Hsep.
  exists (Z.to_nat (separatorCols l)). split.
  - pose proof (separatorCols_pos l (isSeparatorRow_dash l Hsep)). lia.
  - unfold normalized in Hn. rewrite Hsep in Hn. now symmetry.
Qed.

Lemma process_settled lines : forall seen, Forall settled (process lines seen).
Proof.
  induction lines as [|line0 rest IH]; intros seen; cbn [process]; [constructor|].
  destruct (skipped line0) eqn:Hs; [apply IH|].
  assert (H0 : settled (normalized line0)).
  { apply settled_fixed; [now apply skipped_normalized | apply normalized_fixed]. }
  destruct (isTableRow (normalized line0) && negb seen) eqn:Hf.
  - apply andb_true_iff in Hf as [Hr _].
    constructor; [assumption|]. apply Forall_app. split; [|apply IH].
    destruct (nextLineAllows (head rest)); [|constructor].
    constructor; [|constructor].
    assert (Hc : (1 <= Z.to_nat (headerCols (normalized line0)))%nat).
    { pose proof (headerCols_pos _ (skipped_normalized _ Hs) Hr). lia. }
    apply settled_fixed; [apply skipped_dash, separator_row_dash | now apply normalized_row].
  - constructor; [assumption | apply IH].
Qed.

Lemma settled_without_pipe l : includes PIPE l = false -> settled l.
Proof.
  intros Hp. split.
  - unfold skipped. now rewrite Hp.
  - unfold isSeparatorRow. rewrite Hp. discriminate.
Qed.

(** The lines of a joined list. *)
Lemma split_join_lines (fixed : list str) :
  Forall (fun l => includes NL l = false) fixed ->
  split NL (join NL fixed) = match fixed with [] => [[]] | _ => fixed end.
Proof.
  intros H. destruct fixed as [|l ls]; [reflexivity|].
  apply split_join; [discriminate | assumption].
Qed.

(** X1.  Lines without a pipe are never touched: the output is the join of
    lines none of which holds a newline, and its pipe-free lines are the
    pipe-free lines of the input, in the same order. *)
Theorem pipe_free_lines_preserved (text : str) :
  exists fixed,
    preprocessMarkdown text = Ok (join NL fixed)
    /\ Forall (fun l => includes NL l = false) fixed
    /\ List.filter (fun l => negb (includes PIPE l)) fixed
       = List.filter (fun l => negb (includes PIPE l)) (split NL text).
Proof.
  rewrite preprocessMarkdown_process. destruct (includes PIPE text).
  - exists (process (split NL text) false). split; [reflexivity|]. split.
    + apply process_no_newline, split_segments.
    + apply process_pipe_free.
  - exists (split NL text). split; [now rewrite join_split|]. split.
    + apply split_segments.
    + reflexivity.
Qed.

(** X2.  The output has at most one line more than the input (the one
    synthesized separator row), and no more lines than the input when no
    line of the input is a table row that is kept. *)
Theorem at_most_one_line_added (text : str) :
  exists out,
    preprocessMarkdown text = Ok out
    /\ (length (split NL out) <= length (split NL text) + 1)%nat
    /\ (Forall (fun l => kept_row l = false) (split NL text) ->
        (length (split NL out) <= length (split NL text))%nat).
Proof.
  rewrite preprocessMarkdown_process. eexists. split; [reflexivity|].
  destruct (includes PIPE text); [|split; intros; lia].
  rewrite split_join_lines by apply process_no_newline, split_segments.
  pose proof (split_not_nil NL text) as Hne.
  pose proof (process_length (split NL text) false) as Hlen.
  split.
  - destruct (process (split NL text) false) eqn:E; [|exact Hlen].
    destruct (split NL text); [congruence | cbn [length]; lia].
  - intros Hrows. pose proof (process_length_no_row _ false Hrows) as Hle.
    destruct (process (split NL text) false) eqn:E; [|exact Hle].
    destruct (split NL text); [congruence | cbn [length]; lia].
Qed.

(** X3.  No line of the output is an empty table row, and every line of
    the output that the separator test accepts is already the canonical
    separator row for some column count of at least 1. *)
Theorem output_rows_canonical (text : str) :
  exists out,
    preprocessMarkdown text = Ok out
    /\ Forall (fun l =>
                 skipped l = false
                 /\ (isSeparatorRow l = true ->
                     exists c, (1 <= c)%nat /\ l = separator_row c))
              (split NL out).
Proof.
  rewrite preprocessMarkdown_process. eexists. split; [reflexivity|].
  change (Forall settled
            (split NL (if includes PIPE text
                       then join NL (process (split NL text) false) else text))).
  destruct (includes PIPE text) eqn:Hp.
  - rewrite split_join_lines by apply process_no_newline, split_segments.
    pose proof (process_settled (split NL text) false) as H.
    destruct (process (split NL text) false); [|exact H].
    constructor; [now apply settled_without_pipe | constructor].
  - apply Forall_forall. intros l Hl. apply settled_without_pipe.
    apply (lines_without_pipe text l Hp). now apply list_elem_of_In.
Qed.

(** *** The separator pattern *)

Lemma lang_star_class_inv p s : lang (Star (Class p)) s -> forallb p s = true.
Proof.
  intros H. remember (Star (Class p)) as r eqn:Er.
  induction H as [| | | | | |r0 s1 s2 H1 _ H2 IH2]; try discriminate; [reflexivity|].
  injection Er as ->. rewrite forallb_app, IH2 by reflexivity.
  inversion H1; subst. cbn [forallb]. now rewrite H0.
Qed.

Lemma lang_seq_inv r1 r2 s :
  lang (Seq r1 r2) s -> exists s1 s2, s = s1 ++ s2 /\ lang r1 s1 /\ lang r2 s2.
Proof. intros H. inversion H; subst. eauto. Qed.

Lemma lang_class_inv p s : lang (Class p) s -> exists c, s = [c] /\ p c = true.
Proof. intros H. inversion H; subst. eauto. Qed.

(** X4.  The separator test [/^\s*\|[\s-:|]+\|\s*$/] accepts exactly the
    lines made of white space, a pipe, one or more characters that are
    white space, dash, colon or pipe, a pipe, and white space. *)
Theorem isSeparator_shape (line : str) :
  isSeparator line = true <->
  exists before cells after,
    line = before ++ PIPE :: cells ++ PIPE :: after
    /\ forallb is_space before = true
    /\ cells <> [] /\ forallb sep_class cells = true
    /\ forallb is_space after = true.
Proof.
  unfold isSeparator. rewrite test_lang. unfold separator_re. split.
  - intros H.
    apply lang_seq_inv in H as (before & t1 & -> & Hb & H).
    apply lang_seq_inv in H as (p1 & t2 & -> & Hp1 & H).
    apply lang_seq_inv in H as (cells & t3 & -> & Hc & H).
    apply lang_seq_inv in H as (p2 & after & -> & Hp2 & Ha).
    apply lang_class_inv in Hp1 as (c1 & -> & E1). apply N.eqb_eq in E1. subst c1.
    apply lang_class_inv in Hp2 as (c2 & -> & E2). apply N.eqb_eq in E2. subst c2.
    apply lang_seq_inv in Hc as (x & xs & -> & Hx & Hxs).
    apply lang_class_inv in Hx as (c & -> & Ec).
    exists before, (c :: xs), after. repeat split.
    + now apply lang_star_class_inv.
    + discriminate.
    + cbn [forallb]. rewrite Ec. now apply lang_star_class_inv.
    + now apply lang_star_class_inv.
  - intros (before & cells & after & -> & Hb & Hne & Hc & Ha).
    constructor; [now apply lang_star_class|].
    change (PIPE :: cells ++ PIPE :: after) with ([PIPE] ++ cells ++ [PIPE] ++ after).
    constructor; [constructor; apply N.eqb_refl|].
    constructor; [now apply lang_plus_class|].
    constructor; [constructor; apply N.eqb_refl | now apply lang_star_class].
Qed.

Lemma at_most_one_line_added_witness :
  exists out,
    preprocessMarkdown (join NL [lit "a"; lit "| |"; lit "b"]) = Ok out
    /\ (length (split NL out) <= length (split NL (join NL [lit "a"; lit "| |"; lit "b"])))%nat.
Proof.
  destruct (at_most_one_line_added (join NL [lit "a"; lit "| |"; lit "b"]))
    as (out & E & _ & H).
  exists out. split; [exact E|]. apply H. repeat constructor.
Defined.

(** *** Column counts *)

Lemma cellContent_row c :
  (1 <= c)%nat -> cellContent (separator_row c) = replicate c (lit "---").
Proof.
  intros H. rewrite separator_row_cells by assumption.
  unfold cellContent. change (split PIPE (PIPE :: ?t)) with ([] :: split PIPE t).
  rewrite split_cells. cbn [List.map List.filter]. change (0 <? len (trim [])) with false.
  cbv iota. rewrite map_app, List.filter_app.
  assert (E : List.map trim (replicate c (lit " --- ")) = replicate c (lit "---")).
  { clear H. induction c as [|c IH]; [reflexivity|]. cbn [replicate List.map].
    now rewrite IH. }
  rewrite E, filter_replicate by reflexivity. cbn. apply app_nil_r.
Qed.

(** X24.  The separator row synthesized after a header row has exactly as
    many [---] cells as the header has cells that are not blank, and a
    separator row that is normalized has exactly as many as the count made
    on the original line. *)
Theorem separator_matches_header :
  (forall header,
      skipped header = false -> isTableRow header = true ->
      exists row,
        separatorRow (headerCols header) = Ok row
        /\ cellContent row = replicate (length (cellContent header)) (lit "---")
        /\ headerCols row = headerCols header)
  /\ (forall line,
        isSeparatorRow line = true ->
        exists row,
          normalize line = Ok row
          /\ cellContent row = replicate (Z.to_nat (separatorCols line)) (lit "---")
          /\ separatorCols row = separatorCols line).
Proof.
  split.
  - intros header Hs Hr. pose proof (headerCols_pos header Hs Hr) as Hpos.
    exists (separator_row (Z.to_nat (headerCols header))).
    split; [now apply separatorRow_ok|].
    assert (Hc : (1 <= Z.to_nat (headerCols header))%nat) by lia.
    rewrite cellContent_row by assumption. split.
    + rewrite headerCols_cellContent. unfold len. now rewrite Nat2Z.id.
    + rewrite (headerCols_cellContent (separator_row _)), cellContent_row by assumption.
      unfold len. rewrite length_replicate. lia.
  - intros line Hsep. exists (normalized line). split; [apply normalize_ok|].
    unfold normalized. rewrite Hsep.
    pose proof (separatorCols_pos line (isSeparatorRow_dash line Hsep)) as Hpos.
    assert (Hc : (1 <= Z.to_nat (separatorCols line))%nat) by lia.
    rewrite cellContent_row, separatorCols_row by assumption. split; [reflexivity|lia].
Qed.

Lemma separator_matches_header_witness :
  exists row,
    separatorRow (headerCols (lit "| name | | age |")) = Ok row
    /\ cellContent row = replicate 2 (lit "---")
    /\ headerCols row = 2.
Proof.
  apply (proj1 separator_matches_header (lit "| name | | age |")); reflexivity.
Defined.

(** *** Dropped rows *)

Lemma trimStart_nil_iff s : trimStart s = [] <-> forallb is_space s = true.
Proof.
  induction s as [|c s IH]; cbn [trimStart forallb]; [tauto|].
  destruct (is_space c); cbn [andb]; [exact IH|]. split; discriminate.
Qed.

Lemma trimStart_head s : forallb is_space (trimStart s) = true -> trimStart s = [].
Proof.
  induction s as [|c s IH]; cbn [trimStart]; [reflexivity|].
  destruct (is_space c) eqn:E; [exact IH|]. cbn [forallb]. now rewrite E.
Qed.

Lemma forallb_rev {A} (p : A -> bool) (l : list A) : forallb p (rev l) = forallb p l.
Proof.
  induction l as [|x l IH]; [reflexivity|].
  cbn [rev forallb]. rewrite forallb_app, IH. cbn [forallb].
  rewrite andb_true_r. apply andb_comm.
Qed.

Lemma trim_nil_iff s : trim s = [] <-> forallb is_space s = true.
Proof.
  unfold trim, trimEnd. split.
  - intros H. apply (f_equal (@rev N)) in H. rewrite rev_involutive in H. cbn [rev] in H.
    apply trimStart_nil_iff in H. rewrite forallb_rev in H.
    now apply trimStart_nil_iff, trimStart_head.
  - intros H. apply trimStart_nil_iff in H. now rewrite H.
Qed.

Lemma split_cons_segment c x s :
  (x =? c)%N = false ->
  exists seg segs, split c s = seg :: segs /\ split c (x :: s) = (x :: seg) :: segs.
Proof.
  intros H. cbn [split]. rewrite H.
  destruct (split c s) as [|seg segs] eqn:E; [now apply split_not_nil in E|]. eauto.
Qed.

Lemma blank_segments line :
  forallb (fun seg => forallb is_space seg) (split PIPE line)
  = forallb (fun c => is_space c || (c =? PIPE)%N) line.
Proof.
  induction line as [|x line IH]; [reflexivity|].
  cbn [forallb]. destruct (x =? PIPE)%N eqn:E.
  - cbn [split]. rewrite E. cbn [forallb]. now rewrite orb_true_r, IH.
  - destruct (split_cons_segment PIPE x line E) as (seg & segs & E1 & E2).
    rewrite E2, <- IH, E1. cbn [forallb]. rewrite orb_false_r. now rewrite andb_assoc.
Qed.

Lemma cellContent_nil_iff line :
  cellContent line = []
  <-> forallb (fun c => is_space c || (c =? PIPE)%N) line = true.
Proof.
  rewrite <- blank_segments. unfold cellContent.
  induction (split PIPE line) as [|seg segs IH]; cbn [List.map List.filter forallb]; [tauto|].
  destruct (trim seg) as [|c t] eqn:E.
  - change (0 <? len (@nil N)) with false. cbv iota.
    apply trim_nil_iff in E. now rewrite E.
  - assert (Hpos : (0 <? len (c :: t)) = true) by (apply Z.ltb_lt; unfold len; cbn; lia).
    rewrite Hpos. split; [discriminate|]. intros H. apply andb_true_iff in H as [H _].
    apply trim_nil_iff in H. congruence.
Qed.

(** X25.  A line is dropped exactly when it holds a pipe and nothing but
    pipes and white space. *)
Theorem skipped_iff_blank_row (line : str) :
  skipped line = true
  <-> includes PIPE line = true
      /\ forallb (fun c => is_space c || (c =? PIPE)%N) line = true.
Proof.
  unfold skipped. rewrite !andb_true_iff, negb_true_iff. split.
  - intros (Hp & He & Hd). split; [assumption|]. apply cellContent_nil_iff.
    unfold isEmptyRow in He. apply orb_true_iff in He as [He|He].
    + apply Z.eqb_eq in He. unfold len in He. destruct (cellContent line); [reflexivity|].
      cbn [length] in He. lia.
    + destruct (cellContent line) as [|cell cells] eqn:E; [reflexivity|]. exfalso.
      cbn [forallb] in He. apply andb_true_iff in He as [He _].
      assert (Hin : In cell (cellContent line)) by (rewrite E; now left).
      unfold cellContent in Hin. apply filter_In in Hin as [Hin Hlen].
      apply in_map_iff in Hin as (seg & <- & Hseg).
      apply orb_true_iff in He as [He|He]; apply str_eqb_eq in He.
      * rewrite He in Hlen. discriminate.
      * apply includes_false in Hd. apply Hd.
        eapply split_segment_In; [exact Hseg|]. apply trim_In. rewrite He. now left.
  - intros (Hp & Hb). split; [assumption|]. split.
    + unfold isEmptyRow. apply cellContent_nil_iff in Hb. now rewrite Hb.
    + apply includes_false. intros Hin. rewrite forallb_forall in Hb.
      specialize (Hb DASH Hin). discriminate.
Qed.

End PreprocessOutput.

(** ** MarkdownParser: blank input, the unsafe instance, parseMarkdown *)

Section ParseExtras.
Import Preprocess Renderer.

Lemma trimStart_blank s : forallb is_space s = true -> trimStart s = [].
Proof.
  induction s as [|c s IH]; cbn [forallb trimStart]; [reflexivity|].
  intros H. apply andb_true_iff in H as [Hc Hs]. rewrite Hc. now apply IH.
Qed.

Lemma trim_blank s : forallb is_space s = true -> trim s = [].
Proof. intros H. unfold trim. now rewrite trimStart_blank. Qed.

(** X5.  [null], [undefined] and every string made only of white space
    (spaces, tabs, line breaks, ...) give the empty string, whatever the
    parser instance, and without markdown-it or DOMPurify being consulted:
    the result is the same for every renderer and sanitizer, also for ones
    that always throw. *)
Theorem parse_blank_is_empty
    (md_render : MarkdownItOptions -> str -> result html)
    (DOMPurify_sanitize : SanitizeConfig -> html -> result html)
    (this : MarkdownParser) (markdown : arg) :
  match markdown with
  | ANull | AUndefined => True
  | AString s => forallb is_space s = true
  | ANonString _ => False
  end ->
  parse md_render DOMPurify_sanitize this markdown = Ok [].
Proof.
  destruct markdown as [| |s|coerced]; intros H; try reflexivity; [|destruct H].
  unfold parse, parse_try. now rewrite (trim_blank s H).
Qed.

Lemma parse_blank_is_empty_witness :
  parse (fun _ _ => Throw (LibraryError 0)) (fun _ _ => Throw (LibraryError 1))
        defaultMarkdownParser (AString (lit " " ++ [9; 10; 13; 160]%N))
  = Ok [].
Proof.
  apply (parse_blank_is_empty _ _ defaultMarkdownParser
           (AString (lit " " ++ [9; 10; 13; 160]%N))).
  reflexivity.
Defined.

(** X6.  With [renderHTML] set, [parseMarkdown] uses the instance that
    hands [html: true] to markdown-it and never calls the sanitizer: for a
    string that is not blank, it returns exactly what markdown-it renders for
    the preprocessed text, whatever the sanitizer would do. *)
Theorem parseMarkdown_renderHTML_unsanitized
    (md_render : MarkdownItOptions -> str -> result html)
    (DOMPurify_sanitize : SanitizeConfig -> html -> result html)
    (s pre : str) (rendered : html) :
  str_eqb (trim s) [] = false ->
  preprocessMarkdown s = Ok pre ->
  md_render (mkMdOptions true true true true true) pre = Ok rendered ->
  parseMarkdown md_render DOMPurify_sanitize (AString s) (Some true) = Ok rendered.
Proof.
  intros Hs Hp Hr. unfold parseMarkdown, parse, parse_try, render_pipeline.
  rewrite Hs, Hp. cbn [bind]. cbn [md unsafeMarkdownParser new_MarkdownParser
    opt_sanitize opt_breaks opt_highlight not_false negb sanitize].
  now rewrite Hr.
Qed.

Lemma parseMarkdown_renderHTML_unsanitized_witness :
  parseMarkdown
    (fun _ text => Ok [Element (lit "script") [] [Text text]])
    (fun _ _ => Throw (LibraryError 0))
    (AString (lit "x")) (Some true)
  = Ok [Element (lit "script") [] [Text (lit "x")]].
Proof.
  apply (parseMarkdown_renderHTML_unsanitized _ _ (lit "x") (lit "x")); reflexivity.
Defined.

(** X7.  Unless [renderHTML] is [true], [parseMarkdown] goes through the
    sanitizing instance: for every argument, every renderer and every
    sanitizer that honours its allow-list, it returns HTML without a
    [script] element and without an [on*] attribute. *)
Theorem parseMarkdown_default_script_free
    (md_render : MarkdownItOptions -> str -> result html)
    (DOMPurify_sanitize : SanitizeConfig -> html -> result html)
    (markdown : arg) (renderHTML : option bool) :
  honours_allowlist DOMPurify_sanitize ->
  renderHTML <> Some true ->
  exists out,
    parseMarkdown md_render DOMPurify_sanitize markdown renderHTML = Ok out
    /\ script_free out = true.
Proof.
  intros Hcontract Hopt.
  assert (E : parseMarkdown md_render DOMPurify_sanitize markdown renderHTML
              = parse md_render DOMPurify_sanitize defaultMarkdownParser markdown).
  { unfold parseMarkdown. destruct renderHTML as [[|]|]; [congruence | reflexivity..]. }
  rewrite E. unfold parse, parse_try.
  destruct markdown as [| |s|coerced]; cbn [try_catch text_of].
  - now exists [].
  - now exists [].
  - destruct (str_eqb (trim s) []); [now exists []|].
    unfold render_pipeline. rewrite preprocessMarkdown_process. cbn [bind].
    destruct (md_render _ _) as [rendered|e]; cbn [bind try_catch].
    + cbn [sanitize defaultMarkdownParser new_MarkdownParser opt_sanitize not_false].
      destruct (DOMPurify_sanitize parse_config rendered) as [clean|e] eqn:Hclean;
        cbn [try_catch].
      * exists clean. split; [reflexivity|].
        apply allowlisted_script_free. eapply Hcontract, Hclean.
      * eexists. split; [reflexivity | apply escapeHtml_script_free].
    + eexists. split; [reflexivity | apply escapeHtml_script_free].
  - eexists. split; [reflexivity | apply escapeHtml_script_free].
Qed.

Lemma parseMarkdown_default_script_free_witness :
  exists out,
    parseMarkdown
      (fun _ text => Ok [Element (lit "script") [] [Text text];
                         Element (lit "a") [(lit "onclick", lit "x()"); (lit "href", lit "/")] []])
      sanitize_model (AString (lit "x")) (Some false)
    = Ok out
    /\ script_free out = true.
Proof.
  apply parseMarkdown_default_script_free;
    [apply sanitize_model_honours | discriminate].
Defined.

End ParseExtras.

(** ** highlightCode *)

Section HighlightExtras.
Import Highlight.



(** X9.  A language that is absent or not registered is never passed to
    the highlighter, and a highlighter that throws changes nothing: in
    both cases the result is the one for a block without a language, the
    escaped code. *)
Theorem highlightCode_falls_back_to_escaping
    (hljs_getLanguage : str -> result bool)
    (hljs_highlight : str -> str -> result str)
    (md_utils_escapeHtml : str -> result str)
    (this_escapeHtml : str -> str)
    (code lang : str) :
  languageKnown hljs_getLanguage lang = Ok false
  \/ (languageKnown hljs_getLanguage lang = Ok true
      /\ raises (hljs_highlight code lang)) ->
  highlightCode hljs_getLanguage hljs_highlight md_utils_escapeHtml this_escapeHtml
                code lang
  = highlightCode hljs_getLanguage hljs_highlight md_utils_escapeHtml this_escapeHtml
                  code [].
Proof.
  intros [Hk|[Hk [e He]]]; unfold highlightCode; rewrite Hk; cbn [languageKnown bind].
  - reflexivity.
  - now rewrite He.
Qed.

Lemma highlightCode_falls_back_to_escaping_witness :
  highlightCode (fun lang => Ok (str_eqb lang (lit "js")))
                (fun _ _ => Throw (LibraryError 0))
                (fun code => Ok code) (fun code => code)
                (lit "let x") (lit "js")
  = highlightCode (fun lang => Ok (str_eqb lang (lit "js")))
                  (fun _ _ => Throw (LibraryError 0))
                  (fun code => Ok code) (fun code => code)
                  (lit "let x") [].
Proof.
  apply highlightCode_falls_back_to_escaping.
  right. split; [reflexivity|]. exists (LibraryError 0). reflexivity.
Defined.

End HighlightExtras.

(** ** Local storage: isolation, clearing, merging *)

Section StoreExtras.
Import Store.

Lemma storage_key_inj (f f' : str) : storage_key f = storage_key f' -> f = f'.
Proof. unfold storage_key. apply app_inv_tail. Qed.

Lemma write_merged_writes (k : str) (obj : object) (ls ls' : storage) :
  write_merged k obj ls = Ok ls' -> exists t, ls' = setItem k t ls.
Proof.
  unfold write_merged. intros H.
  destruct (getItem k ls) as [s|]; [|injection H as <-; eauto].
  destruct (truthy_str s); [|injection H as <-; eauto].
  destruct (JSON_parse s) as [v|e]; [|discriminate].
  cbn [bind] in H. injection H as <-. eauto.
Qed.

Lemma save_keeps_other_keys (chatflowid chatId : str) (saveObj : object)
    (ls : storage) (k : str) :
  k <> storage_key chatflowid ->
  snd (setLocalStorageChatflow chatflowid chatId saveObj ls) !! k = ls !! k.
Proof.
  intros Hk. unfold setLocalStorageChatflow.
  destruct (prepare chatId saveObj) as [obj|e]; [|reflexivity].
  destruct (MAX_BYTES <? Blob_size (JSON_stringify (JObject obj))); [reflexivity|].
  destruct (write_merged (storage_key chatflowid) obj ls) as [ls'|e] eqn:E; cbn [snd].
  - apply write_merged_writes in E as [t ->]. unfold setItem.
    now rewrite lookup_insert_ne.
  - unfold setItem. now rewrite lookup_insert_ne.
Qed.

Lemma clear_keeps_other_keys (chatflowid : str) (ls : storage) (k : str) :
  k <> storage_key chatflowid ->
  removeLocalStorageChatHistory chatflowid ls !! k = ls !! k.
Proof.
  intros Hk. unfold removeLocalStorageChatHistory. cbv zeta.
  destruct (getItem (storage_key chatflowid) ls) as [t|]; [|reflexivity].
  destruct (truthy_str t); [|reflexivity].
  destruct (let* parsedChatDetails := JSON_parse t in member parsedChatDetails (lit "lead"))
    as [[lead|]|e]; [| |reflexivity].
  - destruct (truthy lead); unfold setItem, removeItem.
    + rewrite lookup_insert_ne, lookup_delete_ne by congruence. reflexivity.
    + now rewrite lookup_delete_ne by congruence.
  - unfold removeItem. now rewrite lookup_delete_ne by congruence.
Qed.

Lemma load_reads_own_key (chatflowid : str) (ls ls' : storage) :
  ls' !! storage_key chatflowid = ls !! storage_key chatflowid ->
  getLocalStorageChatflow chatflowid ls' = getLocalStorageChatflow chatflowid ls.
Proof. intros H. unfold getLocalStorageChatflow, getItem. now rewrite H. Qed.

(** X10.  Saving or clearing for one chatflow identifier leaves every
    other storage entry as it was, in particular the record of every other
    chatflow: what [load] returns for another identifier is unchanged. *)
Theorem other_chatflows_untouched
    (chatflowid other chatId : str) (saveObj : object) (ls : storage) :
  other <> chatflowid ->
  (forall k, k <> storage_key chatflowid ->
     getItem k (snd (setLocalStorageChatflow chatflowid chatId saveObj ls)) = getItem k ls
     /\ getItem k (removeLocalStorageChatHistory chatflowid ls) = getItem k ls)
  /\ getLocalStorageChatflow other
       (snd (setLocalStorageChatflow chatflowid chatId saveObj ls))
     = getLocalStorageChatflow other ls
  /\ getLocalStorageChatflow other (removeLocalStorageChatHistory chatflowid ls)
     = getLocalStorageChatflow other ls.
Proof.
  intros Hne.
  assert (Hk : storage_key other <> storage_key chatflowid)
    by (intros E; now apply storage_key_inj in E).
  split; [|split].
  - intros k H. unfold getItem. split.
    + now apply save_keeps_other_keys.
    + now apply clear_keeps_other_keys.
  - apply load_reads_own_key. now apply save_keeps_other_keys.
  - apply load_reads_own_key. now apply clear_keeps_other_keys.
Qed.

Lemma other_chatflows_untouched_witness :
  let ls : storage :=
    {[ storage_key (lit "b") := JSON_stringify (JObject [(lit "chatId", JString (lit "c2"))]) ]} in
  getLocalStorageChatflow (lit "b")
    (snd (setLocalStorageChatflow (lit "a") (lit "c1") [(lit "n", JNumber 1)] ls))
  = getLocalStorageChatflow (lit "b") ls.
Proof.
  intros ls.
  apply (proj1 (proj2 (other_chatflows_untouched (lit "a") (lit "b") (lit "c1")
                         [(lit "n", JNumber 1)] ls ltac:(discriminate)))).
Defined.

Lemma load_after_remove (chatflowid : str) (ls : storage) :
  getLocalStorageChatflow chatflowid (removeItem (storage_key chatflowid) ls) = JObject [].
Proof.
  unfold getLocalStorageChatflow, getItem, removeItem. now rewrite lookup_delete_eq.
Qed.

Lemma lead_record_well_formed (s : str) (fields : object) (lead : json) :
  JSON_parse s = Ok (JObject fields) -> get (lit "lead") fields = Some lead ->
  well_formed (JObject [(lit "lead", lead)]) = true.
Proof.
  intros Hparse Hlead. apply well_formed_object. split.
  - repeat constructor. intros H. inversion H.
  - cbn [forallb snd]. rewrite andb_true_r.
    apply JSON_parse_well_formed, well_formed_object in Hparse as [_ Hall].
    eapply get_well_formed; eauto.
Qed.



(** *** Saving over a stored record *)

Lemma get_member (k : str) (v : json) (o : object) :
  NoDup (List.map fst o) -> In (k, v) o -> get k o = Some v.
Proof.
  induction o as [|[k' v'] o IH]; cbn [List.map fst get]; [intros _ []|].
  intros Hnd Hin. apply NoDup_cons in Hnd as [Hk Hnd].
  destruct Hin as [E|Hin].
  - injection E as -> ->. now rewrite str_eqb_refl.
  - destruct (str_eqb k k') eqn:E; [|now apply IH].
    apply str_eqb_eq in E. subst k'. exfalso. apply Hk.
    apply list_elem_of_In, in_map_iff. now exists (k, v).
Qed.

Lemma set_same (k : str) (v : json) (o : object) : get k o = Some v -> set k v o = o.
Proof.
  induction o as [|[k' v'] o IH]; cbn [get set]; [discriminate|].
  destruct (str_eqb k k') eqn:E.
  - apply str_eqb_eq in E. subst k'. intros H. now injection H as ->.
  - intros H. now rewrite IH.
Qed.

Lemma assign_same (source : object) (target : object) :
  Forall (fun kv => get (fst kv) target = Some (snd kv)) source ->
  assign target source = target.
Proof.
  unfold assign. induction 1 as [|[k v] source Hkv _ IH]; [reflexivity|].
  cbn [fold_left fst snd] in *. now rewrite set_same.
Qed.

(** What the [try] block writes: the record [merged], in which every
    property of the new record wins and every other property of the stored
    record stays. *)
Lemma write_merged_fields (k : str) (obj prior : object) (ls : storage) :
  well_formed (JObject obj) = true ->
  match getItem k ls with
  | Some s => if truthy_str s
              then exists v, JSON_parse s = Ok v /\ prior = own_properties v
              else prior = []
  | None => prior = []
  end ->
  exists merged,
    write_merged k obj ls = Ok (setItem k (JSON_stringify (JObject merged)) ls)
    /\ well_formed (JObject merged) = true
    /\ forall x, get x merged
                 = match get x obj with Some y => Some y | None => get x prior end.
Proof.
  intros Hwf Hprior. unfold write_merged.
  assert (Hplain : prior = [] ->
            exists merged,
              Ok (setItem k (JSON_stringify (JObject obj)) ls)
              = Ok (setItem k (JSON_stringify (JObject merged)) ls)
              /\ well_formed (JObject merged) = true
              /\ forall x, get x merged
                           = match get x obj with Some y => Some y | None => get x prior end).
  { intros ->. exists obj. split; [reflexivity|]. split; [assumption|].
    intros x. now destruct (get x obj). }
  destruct (getItem k ls) as [s|]; [|now apply Hplain].
  destruct (truthy_str s); [|now apply Hplain].
  destruct Hprior as (v & Hv & ->). rewrite Hv. cbn [bind].
  assert (Hnd : NoDup (List.map fst obj)) by (now apply well_formed_object in Hwf).
  assert (Hm : well_formed (JObject (assign (own_properties v) obj)) = true).
  { apply well_formed_assign; [|assumption].
    apply own_properties_well_formed, (JSON_parse_well_formed s), Hv. }
  assert (Hg : forall x, get x (assign (own_properties v) obj)
                         = match get x obj with
                           | Some y => Some y
                           | None => get x (own_properties v)
                           end) by (intros x; now apply get_assign).
  destruct (get (lit "chatHistory") obj) as [h|] eqn:Hh; [|eauto].
  destruct (truthy h); [|eauto].
  rewrite set_same by (now rewrite Hg, Hh). eauto.
Qed.







(** *** When a save raises *)

Lemma map_result_strip_null (a : list json) :
  map_result strip a
  = if existsb is_null_entry a then Throw TypeError else Ok (List.map stripped a).
Proof.
  induction a as [|x a IH]; [reflexivity|].
  cbn [map_result existsb List.map]. destruct x; cbn [strip is_null_entry bind orb];
    try reflexivity; rewrite IH; destruct (existsb is_null_entry a); reflexivity.
Qed.

(** X16.  A save raises exactly when one of the last 30 history entries is
    [null]: destructuring it is a TypeError that nothing catches, and the
    storage is left as it was.  In every other case the save returns
    normally. *)
Theorem save_raises_on_null_entry
    (chatflowid chatId : str) (saveObj : object) (ls : storage) :
  if null_in_history saveObj
  then setLocalStorageChatflow chatflowid chatId saveObj ls = (Throw TypeError, ls)
  else fst (setLocalStorageChatflow chatflowid chatId saveObj ls) = Ok tt.
Proof.
  unfold null_in_history, setLocalStorageChatflow, prepare.
  set (obj0 := if truthy_str chatId then set (lit "chatId") (JString chatId) saveObj
               else saveObj).
  assert (Hh : get (lit "chatHistory") obj0 = get (lit "chatHistory") saveObj).
  { subst obj0. destruct (truthy_str chatId); [|reflexivity]. now apply get_set_ne. }
  rewrite Hh.
  assert (Hok : forall obj,
            fst (if MAX_BYTES <? Blob_size (JSON_stringify (JObject obj))
                 then (Ok tt, ls)
                 else match write_merged (storage_key chatflowid) obj ls with
                      | Ok ls' => (Ok tt, ls')
                      | Throw _ =>
                          (Ok tt, setItem (storage_key chatflowid)
                                    (JSON_stringify (JObject [(lit "chatId", JString chatId)]))
                                    ls)
                      end) = Ok tt).
  { intros obj. destruct (MAX_BYTES <? _); [reflexivity|].
    now destruct (write_merged _ _ _). }
  destruct (get (lit "chatHistory") saveObj) as [[| | | |entries|]|]; try apply Hok.
  rewrite map_result_strip_null.
  destruct (existsb is_null_entry (slice_last MAX_HISTORY entries)); [reflexivity|].
  cbn [bind]. apply Hok.
Qed.

(** *** Sizes and histories *)

(** X17.  The size cap holds for a first save: when nothing (or the empty
    string) is stored under the key, whatever text is stored there after a
    save has at most 2000 bytes. *)
Theorem first_save_within_cap
    (chatflowid chatId : str) (saveObj : object) (ls : storage) (t : str) :
  getItem (storage_key chatflowid) ls = None
  \/ getItem (storage_key chatflowid) ls = Some [] ->
  getItem (storage_key chatflowid)
          (snd (setLocalStorageChatflow chatflowid chatId saveObj ls)) = Some t ->
  Blob_size t <= MAX_BYTES.
Proof.
  intros Hprior. unfold setLocalStorageChatflow.
  assert (Hold : getItem (storage_key chatflowid) ls = Some t -> Blob_size t <= MAX_BYTES).
  { intros H. destruct Hprior as [E|E]; rewrite E in H; [discriminate|].
    injection H as <-. unfold MAX_BYTES. cbn. lia. }
  destruct (prepare chatId saveObj) as [obj|e]; [|exact Hold].
  destruct (Z.ltb_spec MAX_BYTES (Blob_size (JSON_stringify (JObject obj)))) as [|Hle];
    [exact Hold|].
  assert (E : write_merged (storage_key chatflowid) obj ls
              = Ok (setItem (storage_key chatflowid) (JSON_stringify (JObject obj)) ls)).
  { unfold write_merged. now destruct Hprior as [-> | ->]. }
  rewrite E. cbn [snd]. unfold getItem, setItem. rewrite lookup_insert_eq.
  intros H. now injection H as <-.
Qed.

Lemma first_save_within_cap_witness :
  Blob_size (JSON_stringify (JObject [(lit "n", JNumber 1); (lit "chatId", JString (lit "c1"))]))
  <= MAX_BYTES.
Proof.
  apply (first_save_within_cap (lit "flow") (lit "c1") [(lit "n", JNumber 1)] ∅).
  - left. unfold getItem. apply lookup_empty.
  - vm_compute. reflexivity.
Defined.

(** X18.  No sequence of saves, loads and clears of JSON data, started on
    an empty storage, ever stores a [chatHistory] of more than 30
    entries, under any key. *)
Theorem reachable_history_bounded (ops : list op) :
  forallb json_data ops = true -> history_bounded (run ops ∅).
Proof.
  intros H. apply stored_history_bounded; [assumption|].
  intros k t h Hk. rewrite lookup_empty in Hk. discriminate.
Qed.

Lemma reachable_history_bounded_witness :
  let entry := JObject [(lit "message", JString (lit "hi"))] in
  let ops := [Save (lit "flow") (lit "c1") [(lit "chatHistory", JArray (replicate 40 entry))];
              ClearHistory (lit "flow");
              Save (lit "flow") (lit "c2") [(lit "chatHistory", JArray (replicate 35 entry))]] in
  forallb json_data ops = true /\ history_bounded (run ops ∅).
Proof.
  intros entry ops.
  assert (H : forallb json_data ops = true) by (vm_compute; reflexivity).
  split; [exact H | exact (reachable_history_bounded ops H)].
Defined.

End StoreExtras.

(** ** Small utilities *)

Section UtilsExtras.
Import Utils.

(** The four presence tests agree with each other: [isDefined] is
    the negation of [isNotDefined] and [isNotEmpty] the negation of
    [isEmpty]; a value that is not empty is defined, and the only defined
    value that is empty is the empty string. *)
Theorem presence_tests_agree (value : maybe str) :
  isDefined value = negb (isNotDefined value)
  /\ isNotEmpty value = negb (isEmpty value)
  /\ isNotEmpty value = isDefined value && negb (is_empty_string value)
  /\ (isEmpty value && isDefined value = true <-> value = Value []).
Proof.
  destruct value as [| |[|c s]]; repeat split; try reflexivity; try discriminate.
Qed.


(** *** getCookie *)

Lemma includes_pair_text kv :
  cookie_ok kv = true -> includes SEMICOLON (pair_text kv) = false.
Proof.
  unfold cookie_ok, pair_text. intros H.
  apply andb_true_iff in H as [H Hv]. apply andb_true_iff in H as [H _].
  apply andb_true_iff in H as [Hn _].
  apply negb_true_iff in Hn, Hv.
  now rewrite includes_app, includes_cons, Hn, Hv.
Qed.

Lemma split_cookie_text (cookies : list (str * str)) :
  forallb cookie_ok cookies = true ->
  split SEMICOLON (cookie_text cookies)
  = match cookies with
    | [] => [[]]
    | kv :: rest => pair_text kv :: List.map (fun kv => SPACE :: pair_text kv) rest
    end.
Proof.
  induction cookies as [|kv rest IH]; [reflexivity|].
  cbn [forallb]. intros H. apply andb_true_iff in H as [Hkv Hrest].
  destruct rest as [|kv' rest'].
  - cbn [cookie_text List.map]. apply split_without. now apply includes_pair_text.
  - change (cookie_text (kv :: kv' :: rest'))
      with (pair_text kv ++ SEMICOLON :: SPACE :: cookie_text (kv' :: rest')).
    rewrite split_app by now apply includes_pair_text.
    f_equal. cbn [split]. change (SPACE =? SEMICOLON)%N with false. cbv iota.
    rewrite (IH Hrest). reflexivity.
Qed.

Lemma skipSpaces_pair kv : cookie_ok kv = true -> skipSpaces (pair_text kv) = pair_text kv.
Proof.
  unfold cookie_ok, pair_text. destruct kv as [[|x n] v]; cbn [fst snd app]; [reflexivity|].
  intros H. apply andb_true_iff in H as [H _]. apply andb_true_iff in H as [_ H].
  apply negb_true_iff in H. cbn [startsWith] in H. cbn [skipSpaces]. now rewrite H.
Qed.

Lemma skipSpaces_padded kv :
  cookie_ok kv = true -> skipSpaces (SPACE :: pair_text kv) = pair_text kv.
Proof. intros H. cbn [skipSpaces]. rewrite N.eqb_refl. now apply skipSpaces_pair. Qed.

(** A cookie's text starts with [cname=] exactly when the cookie has that
    name. *)
Lemma name_prefix (cname : str) : forall n v : str,
  includes EQUALS cname = false -> includes EQUALS n = false ->
  take (length (cname ++ [EQUALS])) (n ++ EQUALS :: v) = cname ++ [EQUALS] <-> n = cname.
Proof.
  induction cname as [|c cname IH]; intros n v Hc Hn.
  - destruct n as [|x n]; cbn; [tauto|].
    rewrite includes_cons in Hn. apply orb_false_iff in Hn as [Hx _].
    apply N.eqb_neq in Hx. split; [|discriminate].
    intros E. injection E as E. congruence.
  - rewrite includes_cons in Hc. apply orb_false_iff in Hc as [Hc0 Hc].
    apply N.eqb_neq in Hc0.
    destruct n as [|x n]; cbn [app length take].
    + split; [|discriminate]. intros E. injection E as E _. congruence.
    + rewrite includes_cons in Hn. apply orb_false_iff in Hn as [_ Hn].
      specialize (IH n v Hc Hn). split.
      * intros E. injection E as -> E. f_equal. now apply IH.
      * intros E. injection E as -> ->. f_equal. now apply IH.
Qed.

Lemma indexOf_pair (cname : str) (kv : str * str) :
  includes EQUALS cname = false -> cookie_ok kv = true ->
  indexOf_is_0 (cname ++ [EQUALS]) (pair_text kv) = str_eqb (fst kv) cname.
Proof.
  intros Hc Hkv. unfold cookie_ok in Hkv.
  apply andb_true_iff in Hkv as [Hkv _]. apply andb_true_iff in Hkv as [Hkv _].
  apply andb_true_iff in Hkv as [_ Hn]. apply negb_true_iff in Hn.
  unfold indexOf_is_0, pair_text, str_eqb.
  apply bool_decide_ext. now apply name_prefix.
Qed.

Lemma drop_name (cname v : str) :
  drop (length (cname ++ [EQUALS])) (cname ++ EQUALS :: v) = v.
Proof.
  replace (cname ++ EQUALS :: v) with ((cname ++ [EQUALS]) ++ v)
    by (now rewrite <- app_assoc).
  apply drop_app_length.
Qed.

Lemma scanCookies_pairs (cname : str) (cookies : list (str * str)) :
  includes EQUALS cname = false -> forallb cookie_ok cookies = true ->
  forall segs,
    Forall2 (fun seg kv => skipSpaces seg = pair_text kv) segs cookies ->
    scanCookies (cname ++ [EQUALS]) segs = default [] (cookie_value cname cookies).
Proof.
  intros Hc Hok segs H. induction H as [|seg [n v] segs rest Hseg _ IH]; [reflexivity|].
  cbn [forallb] in Hok. apply andb_true_iff in Hok as [Hkv Hrest].
  cbn [scanCookies cookie_value]. rewrite Hseg, indexOf_pair by assumption.
  cbn [fst]. destruct (str_eqb n cname) eqn:E; [|now apply IH].
  apply str_eqb_eq in E. subst n. cbn [default]. unfold pair_text. cbn [fst snd].
  apply drop_name.
Qed.

Lemma padded_pairs (rest : list (str * str)) :
  forallb cookie_ok rest = true ->
  Forall2 (fun seg kv => skipSpaces seg = pair_text kv)
          (List.map (fun kv => SPACE :: pair_text kv) rest) rest.
Proof.
  induction rest as [|kv rest IH]; [constructor|].
  cbn [forallb List.map]. intros H. apply andb_true_iff in H as [Hkv Hrest].
  constructor; [now apply skipSpaces_padded | now apply IH].
Qed.



End UtilsExtras.

(** ** sendRequest *)

Section RequestExtras.
Import Store Utils Request.


(** X22.  The error of a response that is not [ok]: the [error] property
    of the body when the body is a JSON object that has one; a TypeError
    when the body is the JSON value [null]; otherwise the body itself,
    unless it is falsy (the empty text, [false] or 0), in which case the
    status text. *)
Theorem sendRequest_error_of_failed_response
    (fetch : str -> RequestInit -> result Response) (p : params)
    (response : Response) (d : data) :
  exchange fetch p = Ok (response, d) ->
  ok response = false ->
  sendRequest fetch p
  = mkReply None
      (Some match d with
            | DJson JNull => Exception TypeError
            | DJson (JObject fields) =>
                match get (lit "error") fields with
                | Some e => Thrown (DJson e)
                | None => Thrown d
                end
            | DJson (JString []) | DJson (JBool false) | DJson (JNumber 0) =>
                Thrown (DJson (JString (statusText response)))
            | _ => Thrown d
            end).
Proof.
  intros E Hok. unfold sendRequest. rewrite E, Hok. cbn [negb]. do 2 f_equal.
  unfold errorMessage.
  destruct d as [[|[|]|n|[|c s]|items|fields]|b]; cbn [typeof_object data_truthy truthy
    truthy_str]; try reflexivity.
  destruct n; reflexivity.
Qed.

Lemma sendRequest_error_of_failed_response_witness :
  let response :=
    mkResponse false (lit "Not Found") (Some (lit "application/json; charset=utf-8"))
               (Ok (JObject [(lit "error", JString (lit "no such chatflow"))]))
               (Throw (LibraryError 0)) (Throw (LibraryError 0)) in
  sendRequest (fun _ _ => Ok response) (PString (lit "/api/v1/chatflows/x"))
  = mkReply None (Some (Thrown (DJson (JString (lit "no such chatflow"))))).
Proof.
  intros response.
  apply (sendRequest_error_of_failed_response
           (fun _ _ => Ok response) (PString (lit "/api/v1/chatflows/x")) response
           (DJson (JObject [(lit "error", JString (lit "no such chatflow"))])));
    reflexivity.
Defined.

(** X23.  The request that is sent.  A URL alone is a [GET] without
    headers or body.  A descriptor without a body carries no headers, also
    when the caller passed some.  With a body, the headers are the
    caller's plus [Content-Type: application/json] unless the caller set
    that header, and the body is the JSON text of [params.body], or the
    form data when one is given. *)
Theorem requestInfo_headers_and_body (p : params) :
  mode (requestInfo p) = lit "cors"
  /\ match p with
     | PString _ =>
         requestInfo p = mkRequestInit (lit "GET") (lit "cors") None None
     | PDescriptor d =>
         method (requestInfo p) = p_method d
         /\ body (requestInfo p)
            = match p_formData d, p_body d with
              | Some form, _ => Some (BodyFormData form)
              | None, Value b => Some (BodyString (stringify_body b))
              | None, _ => None
              end
         /\ match p_body d with
            | Value _ =>
                exists h, headers (requestInfo p) = Some h
                  /\ (NoDup (List.map fst (default [] (p_headers d))) ->
                      forall k, get k h
                                = match get k (default [] (p_headers d)) with
                                  | Some x => Some x
                                  | None =>
                                      if str_eqb k (lit "Content-Type")
                                      then Some (JString (lit "application/json"))
                                      else None
                                  end)
            | _ => headers (requestInfo p) = None
            end
     end.
Proof.
  destruct p as [url|d]; [split; reflexivity|].
  split; [reflexivity|]. cbn [requestInfo method body headers]. split; [reflexivity|].
  split.
  - destruct (p_formData d), (p_body d); reflexivity.
  - destruct (p_body d) as [| |b]; try reflexivity. cbn [isDefined is_undefined is_null negb andb].
    eexists. split; [reflexivity|]. intros Hnd k. unfold default_headers.
    assert (E : match p_headers d with Some h => h | None => [] end
                = default [] (p_headers d)) by (now destruct (p_headers d)).
    rewrite E, get_assign by assumption.
    destruct (get k (default [] (p_headers d))); [reflexivity|].
    cbn [get]. now destruct (str_eqb k (lit "Content-Type")).
Qed.

Lemma requestInfo_headers_and_body_witness :
  let d := mkDescriptor (lit "/api") (lit "POST")
             (Value (BodyRecord [(lit "question", JString (lit "hi"))])) None
             (Some [(lit "Authorization", JString (lit "Bearer t"));
                    (lit "Content-Type", JString (lit "text/plain"))])
             (Some (mkFormData 0)) None in
  body (requestInfo (PDescriptor d)) = Some (BodyFormData (mkFormData 0))
  /\ exists h,
       headers (requestInfo (PDescriptor d)) = Some h
       /\ get (lit "Content-Type") h = Some (JString (lit "text/plain"))
       /\ get (lit "Authorization") h = Some (JString (lit "Bearer t")).
Proof.
  intros d.
  destruct (requestInfo_headers_and_body (PDescriptor d)) as (_ & _ & Hb & h & Hh & Hg).
  split; [exact Hb|]. exists h. split; [exact Hh|].
  assert (Hnd : NoDup (List.map fst (default [] (p_headers d)))).
  { apply (bool_decide_eq_true_1 _). vm_compute. reflexivity. }
  split; rewrite (Hg Hnd); reflexivity.
Defined.

End RequestExtras.
